(** * latam_genderize: name encoding and decision pipeline

    A shallow embedding of [latam_genderize/genderize.py] (class
    [LatamGenderize]) and of the older [Genderize/Genderize.py].

    - Python strings are sequences of Unicode code points ([pystr]).
    - Classifier scores and encoded slots are Python/NumPy floats; they are
      modelled as exact rationals ([Q]), so the binary rounding error of a
      floating point subtraction is not part of the model.
    - A pandas DataFrame is an ordered list of labelled columns.  Frames live
      in a store and are handled through references, because the code
      copies and mutates them in place.
    - The Python runtime and the third-party packages the code calls
      ([str.lower], [unidecode.unidecode], [str(float)], the Keras model)
      are the fields of the class [Host]. *)

From Stdlib Require Import String Ascii DecimalString.
From Stdlib Require Import ZArith NArith QArith Qround Qminmax Lqa.
From Stdlib Require Import List Bool Lia.
From Equations Require Import Equations.
Import ListNotations.

Open Scope list_scope.

(** ** Python strings *)

(** A character is its code point, [ord c]. *)
Definition pychar := N.
Definition pystr := list pychar.

(** An ASCII literal of the source, as a Python string. *)
Definition lit (s : string) : pystr := map N_of_ascii (list_ascii_of_string s).

Definition pystr_eqb (a b : pystr) : bool :=
  if list_eq_dec N.eq_dec a b then true else false.

(** ** Floats as rationals *)

(** [a > b] on floats. *)
Definition Qgtb (a b : Q) : bool := negb (Qle_bool a b).

(** Python's [max(a, b)]: the first argument unless the second is greater. *)
Definition py_max (a b : Q) : Q := if Qgtb b a then b else a.

(** Rounding to the nearest integer, a tie going to the even one. *)
Definition round_half_even (x : Q) : Z :=
  let f := Qfloor x in
  let r := x - inject_Z f in
  if Qgtb (1 # 2) r then f
  else if Qgtb r (1 # 2) then (f + 1)%Z
  else if Z.even f then f else (f + 1)%Z.

(** [round(x, 2)], and [Series.round(2)] in the older copy: the nearest
    multiple of 1/100. *)
Definition py_round2 (x : Q) : Q := Qmake (round_half_even (x * 100)) 100.

(** ** Cell values *)

Inductive cell : Type :=
| VNone
| VStr (s : pystr)
| VInt (z : Z)
| VBool (b : bool)
| VFloat (q : Q)
| VList (v : list Q).

(** ** The runtime the package runs on *)

Class Host : Type := {
  (** [s.lower()] *)
  str_lower : pystr -> pystr;
  (** [unidecode.unidecode(s)] *)
  unidecode : pystr -> pystr;
  (** [str(x)] for a float [x] *)
  float_str : Q -> pystr;
  (** [self._model.predict(batch).squeeze(axis=1)] *)
  model_predict : list (list Q) -> list Q
}.

(** ** Normalizer / encoder *)

(** The characters the class [[a-z0-9 ]] accepts. *)
Definition in_class (c : pychar) : bool :=
  ((97 <=? c) && (c <=? 122) || (48 <=? c) && (c <=? 57) || (c =? 32))%N.

(** The rest of [s] after the longest prefix matching [[^a-z0-9 ]+]. *)
Fixpoint skip_run (s : pystr) : pystr :=
  match s with
  | [] => []
  | c :: rest => if in_class c then s else skip_run rest
  end.

(** [re.sub(r'[^a-z0-9 ]+', '', s)]: scanning from the left, a character of
    the class is copied, and a maximal run of other characters is one match,
    replaced by the empty string. *)
Equations? re_sub_strip (s : pystr) : pystr by wf (length s) lt :=
  re_sub_strip [] := [];
  re_sub_strip (c :: rest) with in_class c => {
    | true := c :: re_sub_strip rest;
    | false := re_sub_strip (skip_run rest) }.
Proof.
  clear re_sub_strip. simpl. apply Nat.lt_succ_r.
  induction rest as [|d rest' IH]; simpl; [lia|].
  destruct (in_class d); simpl; lia.
Qed.

(** [", ".join(l)] *)
Definition join_comma (l : list pystr) : pystr :=
  match l with
  | [] => []
  | x :: xs => x ++ flat_map (fun y => lit ", " ++ y) xs
  end.

(** [str(x)] *)
Definition py_str `{Host} (x : cell) : pystr :=
  match x with
  | VNone => lit "None"
  | VStr s => s
  | VInt z => lit (NilZero.string_of_int (Z.to_int z))
  | VBool b => if b then lit "True" else lit "False"
  | VFloat q => float_str q
  | VList v => lit "[" ++ join_comma (map float_str v) ++ lit "]"
  end.

Definition name_length : nat := 50.

Definition space : pychar := 32%N.

Section Encoder.
Context `{Host}.

(** The lambda of [_preprocess]:
    [re.sub(r'[^a-z0-9 ]+', '', unidecode.unidecode(str(x).lower()))] *)
Definition clean_name (x : cell) : pystr :=
  re_sub_strip (unidecode (str_lower (py_str x))).

(** [(name + [' '] * name_length)[:name_length]] *)
Definition pad_name (name : pystr) : pystr :=
  firstn name_length (name ++ repeat space name_length).

(** [max(0.0, ord(char) - 96.0)] *)
Definition encode_char (c : pychar) : Q :=
  py_max 0 (inject_Z (Z.of_N c) - 96).

Definition encode_name (name : pystr) : list Q :=
  map encode_char (pad_name name).

(** Canonical name, then encoded vector, of one cell. *)
Definition encoded_vector (x : cell) : list Q := encode_name (clean_name x).

(** The order of steps as the specification words it, for comparison
    with [clean_name]: transliterate, then lowercase the transliterated
    text, then keep the characters of the class. *)
Definition canonical_as_specified (x : pystr) : pystr :=
  filter in_class (str_lower (unidecode x)).

End Encoder.

(** ** Frames, the store and the effects of a call *)

(** A DataFrame: its columns in order, each a label and one cell per row.
    Column labels are strings and are taken to be distinct, as in every
    frame the tests and the example build; where a label occurred twice the
    operations below would act on its first column. *)
Definition DataFrame := list (pystr * list cell).

Definition column_names (f : DataFrame) : list pystr := map fst f.

(** [len(df)] *)
Definition nrows (f : DataFrame) : nat :=
  match f with
  | [] => 0
  | (_, col) :: _ => length col
  end.

(** Every column has one cell per row: the invariant of a pandas frame,
    which a list of columns does not enforce by itself. *)
Definition frame_ok (f : DataFrame) : bool :=
  forallb (fun c => Nat.eqb (length (snd c)) (nrows f)) f.

(** The exceptions a call can end with.  [NoNameColumn] and
    [ColumnNotFound] are the two [ValueError]s raised by the package itself;
    the others come from pandas, NumPy and the interpreter. *)
Inductive exn : Type :=
| NoNameColumn
| ColumnNotFound (name_column : pystr)
| KeyError (label : pystr)
| LengthMismatch
| ClassifierInvocationError
| NotInList
| IndexError
| AttributeError
| UnboundLocalError.

(** The calls made to the transliteration and classifier capabilities. *)
Inductive event : Type :=
| Transliterate (text : pystr)
| Predict (batch : list (list Q)).

(** Frames are Python objects: a variable holds a reference into the store. *)
Definition ref := nat.

Record world : Type := World {
  frames : list DataFrame;
  calls : list event
}.

Inductive outcome (A : Type) : Type :=
| Ok (a : A)
| Raise (e : exn).
Arguments Ok {A} a.
Arguments Raise {A} e.

Definition M (A : Type) : Type := world -> outcome A * world.

Definition ret {A} (a : A) : M A := fun w => (Ok a, w).

Definition raise {A} (e : exn) : M A := fun w => (Raise e, w).

Definition bind {A B} (m : M A) (k : A -> M B) : M B :=
  fun w =>
    match m w with
    | (Ok a, w') => k a w'
    | (Raise e, w') => (Raise e, w')
    end.

Declare Scope py_scope.
Delimit Scope py_scope with py.
Notation "x <- m ;; k" := (bind m (fun x => k))
  (at level 61, m at next level, right associativity) : py_scope.
Notation "m ;; k" := (bind m (fun _ => k))
  (at level 61, right associativity) : py_scope.
Open Scope py_scope.

Fixpoint mapM {A B} (f : A -> M B) (l : list A) : M (list B) :=
  match l with
  | [] => ret []
  | x :: xs => y <- f x ;; ys <- mapM f xs ;; ret (y :: ys)
  end.

Definition deref (r : ref) (w : world) : DataFrame := nth r (frames w) [].

Fixpoint update_nth {A} (n : nat) (x : A) (l : list A) : list A :=
  match l, n with
  | [], _ => []
  | _ :: t, O => x :: t
  | h :: t, S n' => h :: update_nth n' x t
  end.

Definition read (r : ref) : M DataFrame := fun w => (Ok (deref r w), w).

Definition write (r : ref) (f : DataFrame) : M unit :=
  fun w => (Ok tt, World (update_nth r f (frames w)) (calls w)).

Definition alloc (f : DataFrame) : M ref :=
  fun w => (Ok (length (frames w)), World (frames w ++ [f]) (calls w)).

Definition log (e : event) : M unit :=
  fun w => (Ok tt, World (frames w) (calls w ++ [e])).

(** [df.copy()] *)
Definition copy (df : ref) : M ref := f <- read df ;; alloc f.

(** [df.columns.tolist()] *)
Definition columns_tolist (df : ref) : M (list pystr) :=
  f <- read df ;; ret (column_names f).

Fixpoint lookup_column (label : pystr) (f : DataFrame) : option (list cell) :=
  match f with
  | [] => None
  | (l, col) :: rest => if pystr_eqb label l then Some col else lookup_column label rest
  end.

(** [df[label]] *)
Definition getitem (df : ref) (label : pystr) : M (list cell) :=
  f <- read df ;;
  match lookup_column label f with
  | Some col => ret col
  | None => raise (KeyError label)
  end.

(** A column assignment overwrites the column carrying the label where it
    stands, and appends a new last column when there is none. *)
Fixpoint assign_column (label : pystr) (col : list cell) (f : DataFrame) : DataFrame :=
  match f with
  | [] => [(label, col)]
  | (l, old) :: rest =>
      if pystr_eqb label l then (l, col) :: rest
      else (l, old) :: assign_column label col rest
  end.

(** [df[label] = series], the series carrying the index of [df]. *)
Definition setitem_series (df : ref) (label : pystr) (col : list cell) : M unit :=
  f <- read df ;; write df (assign_column label col f).

(** [df[label] = values] for a Python list: pandas refuses a list whose
    length is not the number of rows. *)
Definition setitem_list (df : ref) (label : pystr) (col : list cell) : M unit :=
  f <- read df ;;
  if Nat.eqb (length col) (nrows f) then write df (assign_column label col f)
  else raise LengthMismatch.

Definition mem (x : pystr) (l : list pystr) : bool := existsb (pystr_eqb x) l.

(** [df.drop(labels, axis=1, inplace=True)]: a label that is no column is a
    [KeyError]. *)
Definition drop_inplace (df : ref) (labels : list pystr) : M unit :=
  f <- read df ;;
  match find (fun l => negb (mem l (column_names f))) labels with
  | Some missing => raise (KeyError missing)
  | None => write df (filter (fun c => negb (mem (fst c) labels)) f)
  end.

Definition clean_name_nlp : pystr := lit "clean_name_nlp".
Definition transform_name_nlp : pystr := lit "transform_name_nlp".
Definition gender_predicted : pystr := lit "gender_predicted".
Definition gender_probability : pystr := lit "gender_probability".

(** The four labels [genderize] writes to. *)
Definition written_labels : list pystr :=
  [clean_name_nlp; transform_name_nlp; gender_predicted; gender_probability].

(** ** The decision rule *)

(** ['M' if prob > 0.5 else 'F'] *)
Definition gender_label (prob : Q) : pystr :=
  if Qgtb prob (1 # 2) then lit "M" else lit "F".

(** [prob if prob > 0.5 else 1.0 - prob] *)
Definition gender_prob (prob : Q) : Q :=
  if Qgtb prob (1 # 2) then prob else 1 - prob.

(** [np.asarray(column.values.tolist())]: the batch handed to the model has
    one row of floats per cell. *)
Fixpoint asarray (col : list cell) : option (list (list Q)) :=
  match col with
  | [] => Some []
  | VList v :: rest => option_map (cons v) (asarray rest)
  | _ :: _ => None
  end.

(** [l.index(x)] *)
Fixpoint index (x : pystr) (l : list pystr) : option nat :=
  match l with
  | [] => None
  | y :: rest => if pystr_eqb x y then Some O else option_map S (index x rest)
  end.

(** ** class LatamGenderize (latam_genderize/genderize.py) *)

Section LatamGenderize.
Context `{Host}.

Definition name_patterns : list pystr :=
  map lit ["name"; "nombre"; "first_name"; "firstname"; "primer_nombre"]%string.

(** The [for pattern in name_patterns] loop of [_identify_column_name]. *)
Fixpoint for_pattern (patterns columns normalized_columns : list pystr) : M pystr :=
  match patterns with
  | [] => raise NoNameColumn
  | pattern :: more =>
      if mem pattern normalized_columns then
        match index pattern normalized_columns with
        | Some i =>
            match nth_error columns i with
            | Some c => ret c
            | None => raise IndexError
            end
        | None => raise NotInList
        end
      else for_pattern more columns normalized_columns
  end.

Definition _identify_column_name (columns : list pystr) : M pystr :=
  let normalized_columns := map str_lower columns in
  for_pattern name_patterns columns normalized_columns.

(** One application of the cleaning lambda: the call to the
    transliteration capability is recorded, the value is [clean_name]. *)
Definition apply_clean (x : cell) : M pystr :=
  log (Transliterate (str_lower (py_str x))) ;; ret (clean_name x).

Definition _preprocess (df : ref) (name_column : pystr) : M ref :=
  df_copy <- copy df ;;
  names <- getitem df_copy name_column ;;
  clean_names <- mapM apply_clean names ;;
  let transformed_names := clean_names in
  let padded_names := map pad_name transformed_names in
  let encoded_names := map (map encode_char) padded_names in
  setitem_series df_copy clean_name_nlp (map VStr clean_names) ;;
  setitem_list df_copy transform_name_nlp (map VList encoded_names) ;;
  ret df_copy.

Definition _predict (df : ref) : M ref :=
  column <- getitem df transform_name_nlp ;;
  match asarray column with
  | None => raise ClassifierInvocationError
  | Some input_data =>
      log (Predict input_data) ;;
      let predictions := model_predict input_data in
      let gender_labels := map gender_label predictions in
      let gender_probs := map gender_prob predictions in
      df_result <- copy df ;;
      setitem_list df_result gender_predicted (map VStr gender_labels) ;;
      setitem_list df_result gender_probability
        (map (fun prob => VFloat (py_round2 prob)) gender_probs) ;;
      ret df_result
  end.

Definition genderize (df : ref) (name_column : option pystr) : M ref :=
  name_column <-
    match name_column with
    | None => columns <- columns_tolist df ;; _identify_column_name columns
    | Some c => ret c
    end ;;
  columns <- columns_tolist df ;;
  if negb (mem name_column columns) then raise (ColumnNotFound name_column)
  else
    df_processed <- _preprocess df name_column ;;
    df_result <- _predict df_processed ;;
    drop_inplace df_result [clean_name_nlp; transform_name_nlp] ;;
    ret df_result.

(** *** What a successful call leaves behind

    These four definitions are not code of the package: the properties
    below state the result of a call with them. *)

(** The calls to the transliteration capability, one per name. *)
Definition transliterations (names : list cell) : list event :=
  map (fun x => Transliterate (str_lower (py_str x))) names.

(** The frame [_preprocess] leaves in its copy. *)
Definition preprocessed (names : list cell) (f : DataFrame) : DataFrame :=
  assign_column transform_name_nlp (map VList (map encoded_vector names))
    (assign_column clean_name_nlp (map VStr (map clean_name names)) f).

(** The frame [_predict] leaves in its copy. *)
Definition predicted (scores : list Q) (f : DataFrame) : DataFrame :=
  assign_column gender_probability
    (map (fun s => VFloat (py_round2 (gender_prob s))) scores)
    (assign_column gender_predicted (map (fun s => VStr (gender_label s)) scores) f).

(** The frame a successful [genderize] returns. *)
Definition genderized (names : list cell) (f : DataFrame) : DataFrame :=
  filter (fun c => negb (mem (fst c) [clean_name_nlp; transform_name_nlp]))
    (predicted (model_predict (map encoded_vector names)) (preprocessed names f)).

End LatamGenderize.

(** ** class LatamGenderize of Genderize/Genderize.py, the older copy *)

Module Legacy.
Section Legacy.
Context `{Host}.

(** [if 'name' in trf_cols: ... elif 'nombre' in trf_cols: ...], then
    [return src_cols[index]] with [index] possibly never assigned. *)
Definition __identify_column_name (src_cols : list pystr) : M pystr :=
  let trf_cols := map str_lower src_cols in
  let index_var :=
    if mem (lit "name") trf_cols then index (lit "name") trf_cols
    else if mem (lit "nombre") trf_cols then index (lit "nombre") trf_cols
    else None in
  match index_var with
  | None => raise UnboundLocalError
  | Some i =>
      match nth_error src_cols i with
      | Some c => ret c
      | None => raise IndexError
      end
  end.

(** [x.lower()] exists on strings only. *)
Definition apply_clean (x : cell) : M pystr :=
  match x with
  | VStr s =>
      log (Transliterate (str_lower s)) ;;
      ret (re_sub_strip (unidecode (str_lower s)))
  | _ => raise AttributeError
  end.

Definition __preprocess (df : ref) (name_column : pystr) : M ref :=
  serie_names <- getitem df name_column ;;
  clean_name <- mapM apply_clean serie_names ;;
  let trf_names := clean_name in
  let trf_names := map pad_name trf_names in
  let trf_names := map (map encode_char) trf_names in
  setitem_series df clean_name_nlp (map VStr clean_name) ;;
  setitem_list df transform_name_nlp (map VList trf_names) ;;
  ret df.

Definition __predict (df : ref) : M ref :=
  column <- getitem df transform_name_nlp ;;
  match asarray column with
  | None => raise ClassifierInvocationError
  | Some input_data =>
      log (Predict input_data) ;;
      let result := model_predict input_data in
      setitem_list df gender_predicted (map (fun logit => VStr (gender_label logit)) result) ;;
      setitem_list df gender_probability (map (fun logit => VFloat (gender_prob logit)) result) ;;
      probs <- getitem df gender_probability ;;
      setitem_series df gender_probability
        (map (fun c => match c with VFloat q => VFloat (py_round2 q) | other => other end) probs) ;;
      ret df
  end.

(** [if not name_column]: [None] and the empty string both count. *)
Definition genderize (df : ref) (name_column : option pystr) : M ref :=
  name_column <-
    match name_column with
    | None | Some [] => columns <- columns_tolist df ;; __identify_column_name columns
    | Some c => ret c
    end ;;
  df_trf <- __preprocess df name_column ;;
  df_res <- __predict df_trf ;;
  drop_inplace df_res [clean_name_nlp; transform_name_nlp] ;;
  ret df_res.

End Legacy.
End Legacy.

(** ** A concrete host

    Enough of the runtime to run the package on the names of its tests:
    [str.lower] on ASCII and Latin-1, the entries of Unidecode's table for
    the accented letters of Spanish and for the two ideographs of its
    documented example [unidecode("\u5317\u4EB0") = "Bei Jing "], and a
    stand-in classifier. *)

Module Sample.

(** [c.lower()] for an ASCII or Latin-1 letter; other characters of this
    fragment are left as they are. *)
Definition lower_char (c : pychar) : pychar :=
  if ((65 <=? c) && (c <=? 90))%N then (c + 32)%N
  else if ((192 <=? c) && (c <=? 222) && negb (c =? 215))%N then (c + 32)%N
  else c.

(** Unidecode leaves ASCII as it is, maps a character of its table to the
    table's ASCII text, and drops a character it has no entry for.  The
    entries below are those of the real table; a character outside this
    fragment is treated as one without an entry. *)
Definition unidecode_char (c : pychar) : pystr :=
  if (c <? 128)%N then [c]
  else match c with
       | 193%N => lit "A" | 201%N => lit "E" | 205%N => lit "I"
       | 209%N => lit "N" | 211%N => lit "O" | 218%N => lit "U"
       | 220%N => lit "U"
       | 225%N => lit "a" | 233%N => lit "e" | 237%N => lit "i"
       | 241%N => lit "n" | 243%N => lit "o" | 250%N => lit "u"
       | 252%N => lit "u"
       | 0x5317%N => lit "Bei "
       | 0x4EB0%N => lit "Jing "
       | _ => []
       end.

(** The digits of [num / den] after the decimal point, for
    [0 <= num < den], most significant first. *)
Fixpoint fraction_digits (fuel : nat) (num den : Z) : pystr :=
  match fuel with
  | O => []
  | S fuel' =>
      let d := (10 * num / den)%Z in
      let r := (10 * num - d * den)%Z in
      (48 + Z.to_N d)%N ::
        (if (r =? 0)%Z then [] else fraction_digits fuel' r den)
  end.

(** [str(x)] for a float with a short decimal expansion, as [0.7] or
    [35.0]. *)
Definition decimal_str (q : Q) : pystr :=
  let n := Z.abs (Qnum q) in
  let d := Z.pos (Qden q) in
  (if (Qnum q <? 0)%Z then lit "-" else []) ++
  lit (NilZero.string_of_int (Z.to_int (n / d))) ++ lit "." ++
  fraction_digits 17 (n mod d) d.

(** A stand-in for the trained model: one score in [0, 1] per row. *)
Definition first_slot_score (v : list Q) : Q := hd 0 v / 26.

(** "María José", "Juan-Pérez" and "Carlos123", the names of the tests,
    and the ideograph U+5317. *)
Definition maria_jose : pystr :=
  [77; 97; 114; 237; 97; 32; 74; 111; 115; 233]%N.
Definition juan_perez : pystr :=
  [74; 117; 97; 110; 45; 80; 233; 114; 101; 122]%N.
Definition carlos123 : pystr := lit "Carlos123".
Definition bei : pystr := [0x5317%N].

#[export] Instance host : Host := {|
  str_lower := map lower_char;
  unidecode := flat_map unidecode_char;
  float_str := decimal_str;
  model_predict := map first_slot_score
|}.

(** The frame of the tests. *)
Definition people : DataFrame :=
  [(lit "name", [VStr (lit "Juan"); VStr (lit "Maria"); VStr (lit "Carlos")]);
   (lit "age", [VInt 25; VInt 30; VInt 35])].

(** Columns "id", "Nombre", "edad": a name column found whatever its case. *)
Definition personas : DataFrame :=
  [(lit "id", [VInt 1; VInt 2]);
   (lit "Nombre", [VStr maria_jose; VStr juan_perez]);
   (lit "edad", [VInt 30; VInt 41])].

(** Columns "id", "age", "city": no name column. *)
Definition places : DataFrame :=
  [(lit "id", [VInt 1]); (lit "age", [VInt 25]); (lit "city", [VStr (lit "Cali")])].

(** A name column with a missing value and a number in it. *)
Definition mixed_names : DataFrame :=
  [(lit "name", [VNone; VInt 42; VStr maria_jose])].

(** A frame whose second column is already called "clean_name_nlp". *)
Definition annotated : DataFrame :=
  [(lit "name", [VStr (lit "Juan"); VStr (lit "Maria")]);
   (clean_name_nlp, [VStr (lit "checked"); VStr (lit "pending")])].

(** A frame that already carries a "gender_predicted" column. *)
Definition labelled : DataFrame :=
  [(lit "name", [VStr (lit "Juan"); VStr (lit "Maria")]);
   (gender_predicted, [VStr (lit "M"); VStr (lit "F")]);
   (lit "age", [VInt 25; VInt 30])].

(** A name column whose second cell is missing. *)
Definition gap_names : DataFrame :=
  [(lit "name", [VStr (lit "Juan"); VNone; VStr (lit "Maria")])].


End Sample.

(** ** Notions used to state further properties

    Not code of the package. *)

(** The cells [x.lower()] is defined on. *)
Definition is_str (x : cell) : bool :=
  match x with
  | VStr _ => true
  | _ => false
  end.

Definition is_letter (c : pychar) : bool := ((97 <=? c) && (c <=? 122))%N.

Definition is_digit (c : pychar) : bool := ((48 <=? c) && (c <=? 57))%N.

(** A name with every digit replaced by a space. *)
Definition blank_digits (name : pystr) : pystr :=
  map (fun c => if is_digit c then space else c) name.

(** * Properties *)

(** ** Strings and floats *)

Lemma pystr_eqb_eq a b : pystr_eqb a b = true <-> a = b.
Proof.
  unfold pystr_eqb. destruct (list_eq_dec N.eq_dec a b); split; congruence.
Qed.

Lemma pystr_eqb_neq a b : pystr_eqb a b = false <-> a <> b.
Proof.
  unfold pystr_eqb. destruct (list_eq_dec N.eq_dec a b); split; congruence.
Qed.

Lemma pystr_eqb_refl a : pystr_eqb a a = true.
Proof. apply pystr_eqb_eq. reflexivity. Qed.

Lemma Qgtb_lt a b : Qgtb a b = true <-> b < a.
Proof.
  unfold Qgtb. rewrite negb_true_iff. split; intro H.
  - apply Qnot_le_lt. intro L. apply Qle_bool_iff in L. congruence.
  - destruct (Qle_bool a b) eqn:E; [|reflexivity].
    apply Qle_bool_iff in E. exfalso. exact (Qlt_not_le _ _ H E).
Qed.

Lemma Qgtb_le a b : Qgtb a b = false <-> a <= b.
Proof.
  unfold Qgtb. rewrite negb_false_iff. apply Qle_bool_iff.
Qed.

Ltac z2q :=
  repeat match goal with
  | |- context [inject_Z (Zpos ?p)] => change (inject_Z (Zpos p)) with (Zpos p # 1)
  | H : context [inject_Z (Zpos ?p)] |- _ =>
      change (inject_Z (Zpos p)) with (Zpos p # 1) in H
  end.
Ltac by_Q := first [rewrite Zlt_Qlt | rewrite Zle_Qle]; z2q; lra.

Lemma py_max_Qmax a b : py_max a b == Qmax a b.
Proof.
  unfold py_max. destruct (Qgtb b a) eqn:E.
  - apply Qgtb_lt in E. symmetry. apply Q.max_r. lra.
  - apply Qgtb_le in E. symmetry. apply Q.max_l. exact E.
Qed.

Lemma encode_char_Z c : encode_char c == inject_Z (Z.max 0 (Z.of_N c - 96)).
Proof.
  unfold encode_char, py_max.
  destruct (Qgtb (inject_Z (Z.of_N c) - 96) 0) eqn:E.
  - apply Qgtb_lt in E.
    assert (L : (96 < Z.of_N c)%Z) by by_Q.
    rewrite Z.max_r by lia. unfold Zminus. rewrite inject_Z_plus, inject_Z_opp. z2q. lra.
  - apply Qgtb_le in E.
    assert (L : (Z.of_N c <= 96)%Z) by by_Q.
    rewrite Z.max_l by lia. reflexivity.
Qed.





(** ** The decision rule *)







(** ** The normalizer *)

Lemma filter_skip_run s : filter in_class (skip_run s) = filter in_class s.
Proof.
  induction s as [|c rest IH]; simpl; [reflexivity|].
  destruct (in_class c) eqn:E; simpl; rewrite ?E; auto.
Qed.

(** Deleting every run of characters outside the class keeps exactly the
    characters of the class, in their order. *)
Lemma re_sub_strip_filter s : re_sub_strip s = filter in_class s.
Proof.
  funelim (re_sub_strip s); simp re_sub_strip; simpl.
  - reflexivity.
  - rewrite Heq. simpl. f_equal. assumption.
  - rewrite Heq. simpl. rewrite <- filter_skip_run. assumption.
Qed.

Lemma re_sub_strip_in_class s : Forall (fun c => in_class c = true) (re_sub_strip s).
Proof.
  rewrite re_sub_strip_filter. apply Forall_forall. intros c Hc.
  apply filter_In in Hc. tauto.
Qed.

Lemma filter_fixes_class s :
  Forall (fun c => in_class c = true) s -> filter in_class s = s.
Proof.
  induction 1 as [|c rest Hc _ IH]; simpl; [reflexivity|].
  rewrite Hc, IH. reflexivity.
Qed.

Lemma firstn_repeat_le {A} (x : A) (k n : nat) :
  (k <= n)%nat -> firstn k (repeat x n) = repeat x k.
Proof.
  revert n. induction k as [|k IH]; intros [|n] Hle; simpl; try reflexivity; try lia.
  f_equal. apply IH. lia.
Qed.

Lemma in_firstn {A} (x : A) (n : nat) (l : list A) :
  In x (firstn n l) -> In x l.
Proof.
  intro Hx. rewrite <- (firstn_skipn n l). apply in_or_app. left. exact Hx.
Qed.

Section NormalizerFacts.
Context `{Host}.

Lemma clean_name_filter (x : cell) :
  clean_name x = filter in_class (unidecode (str_lower (py_str x))).
Proof.
  unfold clean_name. apply re_sub_strip_filter.
Qed.

Lemma clean_name_in_class x : Forall (fun c => in_class c = true) (clean_name x).
Proof. apply re_sub_strip_in_class. Qed.

Lemma pad_name_length name : length (pad_name name) = name_length.
Proof.
  unfold pad_name. rewrite length_firstn, length_app, repeat_length. lia.
Qed.

Lemma pad_name_short name :
  (length name <= name_length)%nat ->
  pad_name name = name ++ repeat space (name_length - length name)%nat.
Proof.
  intro Hle. unfold pad_name.
  rewrite firstn_app, firstn_all2 by exact Hle.
  f_equal. apply firstn_repeat_le. lia.
Qed.

Lemma pad_name_long name :
  (name_length <= length name)%nat -> pad_name name = firstn name_length name.
Proof.
  intro Hle. unfold pad_name. rewrite firstn_app.
  replace (name_length - length name)%nat with 0%nat by lia.
  simpl. apply app_nil_r.
Qed.

Lemma pad_name_in_class name :
  Forall (fun c => in_class c = true) name ->
  Forall (fun c => in_class c = true) (pad_name name).
Proof.
  intro Hn. unfold pad_name. apply Forall_forall. intros c Hc.
  apply in_firstn, in_app_or in Hc. destruct Hc as [Hc|Hc].
  - rewrite Forall_forall in Hn. auto.
  - apply repeat_spec in Hc. subst c. reflexivity.
Qed.

End NormalizerFacts.

(** ** The encoder *)

Lemma in_class_slot_Z c :
  in_class c = true -> (0 <= Z.max 0 (Z.of_N c - 96) <= 26)%Z.
Proof.
  unfold in_class. intro Hc.
  repeat (apply orb_prop in Hc; destruct Hc as [Hc|Hc]);
    try (apply andb_prop in Hc; destruct Hc as [Ha Hb];
         apply N.leb_le in Ha, Hb);
    try apply N.eqb_eq in Hc; lia.
Qed.

Section EncoderFacts.
Context `{Host}.

(** C2 (as amended).  The canonical name of a cell is obtained by taking
    its string form, lowercasing it, transliterating the lowercased text,
    and then keeping, in their order, exactly the characters of
    [[a-z0-9 ]]; so every character of a canonical name is of that class. *)
Theorem canonical_name_steps (x : cell) :
  clean_name x = filter in_class (unidecode (str_lower (py_str x))) /\
  Forall (fun c => in_class c = true) (clean_name x).
Proof.
  split; [apply clean_name_filter|apply clean_name_in_class].
Qed.

(** C3.  The encoded vector of any cell has exactly 50 slots: a canonical
    name of at most 50 characters is followed by spaces up to 50, a longer
    one is cut to its first 50 characters; and the empty name encodes to
    fifty zeros. *)
Theorem encoded_vector_length (x : cell) :
  length (encoded_vector x) = 50%nat /\
  length (pad_name (clean_name x)) = 50%nat /\
  ((length (clean_name x) <= 50)%nat ->
   pad_name (clean_name x) =
   clean_name x ++ repeat space (50 - length (clean_name x))%nat) /\
  ((50 <= length (clean_name x))%nat ->
   pad_name (clean_name x) = firstn 50 (clean_name x)) /\
  (str_lower [] = [] -> unidecode [] = [] ->
   encoded_vector (VStr []) = repeat 0 50).
Proof.
  split; [|split; [|split; [|split]]].
  - unfold encoded_vector, encode_name. rewrite length_map.
    apply pad_name_length.
  - apply pad_name_length.
  - apply pad_name_short.
  - apply pad_name_long.
  - intros Hl Hu. unfold encoded_vector, clean_name. simpl py_str.
    rewrite Hl, Hu. reflexivity.
Qed.

Lemma encode_char_range c : in_class c = true -> 0 <= encode_char c <= 26.
Proof.
  intro Hc. apply in_class_slot_Z in Hc. rewrite encode_char_Z.
  destruct Hc as [H0 H26]. rewrite Zle_Qle in H0, H26. z2q.
  change (inject_Z 0) with 0 in H0. split; assumption.
Qed.

(** C4.  Slot [i] of the encoded vector is [max(0.0, ord(c) - 96.0)] for
    the character [c] at position [i] of the padded canonical name; the
    letters a to z get 1.0 to 26.0, the digits and the space get 0.0; and
    every slot lies in [0.0, 26.0]. *)
Theorem encoded_vector_slots (x : cell) :
  (forall i c, nth_error (pad_name (clean_name x)) i = Some c ->
     nth_error (encoded_vector x) i = Some (encode_char c) /\
     encode_char c == Qmax 0 (inject_Z (Z.of_N c) - 96)) /\
  (forall c, (97 <= c <= 122)%N ->
     encode_char c == inject_Z (Z.of_N c) - 96 /\ 1 <= encode_char c <= 26) /\
  (forall c, (48 <= c <= 57)%N \/ c = space -> encode_char c == 0) /\
  Forall (fun v => 0 <= v <= 26) (encoded_vector x).
Proof.
  split; [|split; [|split]].
  - intros i c Hi. split.
    + unfold encoded_vector, encode_name. apply map_nth_error. exact Hi.
    + apply py_max_Qmax.
  - intros c Hc. rewrite encode_char_Z.
    rewrite Z.max_r by lia. unfold Z.sub.
    rewrite inject_Z_plus, inject_Z_opp. z2q.
    assert (H97 : (97 <= Z.of_N c)%Z) by lia.
    assert (H122 : (Z.of_N c <= 122)%Z) by lia.
    rewrite Zle_Qle in H97, H122. z2q. split; [reflexivity|lra].
  - intros c Hc. rewrite encode_char_Z. unfold space in Hc.
    rewrite Z.max_l by lia. reflexivity.
  - unfold encoded_vector, encode_name. apply Forall_map.
    eapply Forall_impl; [|apply pad_name_in_class, clean_name_in_class].
    intros c Hc. apply encode_char_range. exact Hc.
Qed.

(** C9.  Normalizing a canonical name gives it back, on a host whose
    [lower] and [unidecode] leave a string of [[a-z0-9 ]] characters as it
    is. *)
Theorem normalize_idempotent :
  (forall s, Forall (fun c => in_class c = true) s -> str_lower s = s) ->
  (forall s, Forall (fun c => in_class c = true) s -> unidecode s = s) ->
  forall x : cell, clean_name (VStr (clean_name x)) = clean_name x.
Proof.
  intros Hlower Hunidecode x.
  rewrite (clean_name_filter (VStr (clean_name x))). simpl py_str.
  rewrite Hlower, Hunidecode by apply clean_name_in_class.
  apply filter_fixes_class, clean_name_in_class.
Qed.

End EncoderFacts.

(** ** The sample host *)

Lemma sample_lower_fixes_class s :
  Forall (fun c => in_class c = true) s -> map Sample.lower_char s = s.
Proof.
  induction 1 as [|c rest Hc _ IH]; simpl; [reflexivity|].
  rewrite IH. f_equal. unfold Sample.lower_char.
  assert (Hz := in_class_slot_Z c Hc).
  unfold in_class in Hc.
  destruct ((65 <=? c) && (c <=? 90))%N eqn:E1.
  - apply andb_prop in E1. destruct E1 as [Ha Hb].
    apply N.leb_le in Ha, Hb.
    repeat (apply orb_prop in Hc; destruct Hc as [Hc|Hc]);
      try (apply andb_prop in Hc; destruct Hc as [Hc1 Hc2];
           apply N.leb_le in Hc1, Hc2);
      try apply N.eqb_eq in Hc; lia.
  - destruct ((192 <=? c) && (c <=? 222) && negb (c =? 215))%N eqn:E2;
      [|reflexivity].
    apply andb_prop in E2. destruct E2 as [E2 _].
    apply andb_prop in E2. destruct E2 as [Ha Hb].
    apply N.leb_le in Ha, Hb. lia.
Qed.

Lemma sample_unidecode_fixes_class s :
  Forall (fun c => in_class c = true) s -> flat_map Sample.unidecode_char s = s.
Proof.
  induction 1 as [|c rest Hc _ IH]; simpl; [reflexivity|].
  rewrite IH. unfold Sample.unidecode_char.
  assert (Hz := in_class_slot_Z c Hc).
  destruct (c <? 128)%N eqn:E; [reflexivity|].
  apply N.ltb_ge in E. lia.
Qed.

(** The scenarios of the tests and of the specification. *)
Example clean_name_maria_jose :
  clean_name (H := Sample.host) (VStr Sample.maria_jose) = lit "maria jose".
Proof. reflexivity. Qed.

Example clean_name_juan_perez :
  clean_name (H := Sample.host) (VStr Sample.juan_perez) = lit "juanperez".
Proof. reflexivity. Qed.

Example clean_name_carlos123 :
  clean_name (H := Sample.host) (VStr Sample.carlos123) = lit "carlos123".
Proof. reflexivity. Qed.

Example encoded_vector_maria_jose :
  encoded_vector (H := Sample.host) (VStr Sample.maria_jose) =
  [13; 1; 18; 9; 1; 0; 10; 15; 19; 5] ++ repeat 0 40.
Proof. reflexivity. Qed.

(** C2, as the specification words it, fails.  The transliteration of the
    caseless ideograph U+5317 is "Bei ": the code lowercases first, so the capital
    survives to the filter and is removed, where transliterating first would
    have kept a lowercased "b". *)
Lemma clean_name_order_counterexample :
  clean_name (H := Sample.host) (VStr Sample.bei) = lit "ei " /\
  canonical_as_specified (H := Sample.host) Sample.bei = lit "bei " /\
  clean_name (H := Sample.host) (VStr Sample.bei) <>
  canonical_as_specified (H := Sample.host) Sample.bei.
Proof.
  split; [reflexivity|]. split; [reflexivity|]. discriminate.
Qed.

Lemma encoded_vector_length_witness :
  (length (encoded_vector (H := Sample.host) (VStr Sample.maria_jose)) = 50%nat /\
   pad_name (clean_name (H := Sample.host) (VStr Sample.maria_jose)) =
   clean_name (H := Sample.host) (VStr Sample.maria_jose) ++
   repeat space
     (50 - length (clean_name (H := Sample.host) (VStr Sample.maria_jose)))%nat) /\
  pad_name (clean_name (H := Sample.host) (VStr (repeat 97%N 60))) =
  firstn 50 (clean_name (H := Sample.host) (VStr (repeat 97%N 60))) /\
  encoded_vector (H := Sample.host) (VStr []) = repeat 0 50.
Proof.
  split; [split|split].
  - apply (@encoded_vector_length Sample.host (VStr Sample.maria_jose)).
  - apply (@encoded_vector_length Sample.host (VStr Sample.maria_jose)).
    vm_compute. lia.
  - apply (@encoded_vector_length Sample.host (VStr (repeat 97%N 60))).
    vm_compute. lia.
  - apply (@encoded_vector_length Sample.host (VStr [])); reflexivity.
Defined.

Lemma encoded_vector_slots_witness :
  (nth_error (encoded_vector (H := Sample.host) (VStr Sample.maria_jose)) 0 =
   Some (encode_char 109%N) /\
   encode_char 109%N == Qmax 0 (inject_Z (Z.of_N 109) - 96)) /\
  (encode_char 97%N == inject_Z (Z.of_N 97) - 96 /\ 1 <= encode_char 97%N <= 26) /\
  encode_char 57%N == 0 /\
  encode_char space == 0.
Proof.
  destruct (@encoded_vector_slots Sample.host (VStr Sample.maria_jose))
    as (Slot & Letter & Blank & _).
  split; [|split; [|split]].
  - apply Slot. reflexivity.
  - apply Letter. lia.
  - apply Blank. left. lia.
  - apply Blank. right. reflexivity.
Defined.

Lemma normalize_idempotent_witness :
  clean_name (H := Sample.host)
    (VStr (clean_name (H := Sample.host) (VStr Sample.maria_jose))) =
  clean_name (H := Sample.host) (VStr Sample.maria_jose).
Proof.
  apply (@normalize_idempotent Sample.host
           sample_lower_fixes_class sample_unidecode_fixes_class).
Defined.

(** ** Frames and the store *)

Lemma mem_In x l : mem x l = true <-> In x l.
Proof.
  unfold mem. rewrite existsb_exists. split.
  - intros (y & Hy & E). apply pystr_eqb_eq in E. subst y. exact Hy.
  - intro Hx. exists x. split; [exact Hx|apply pystr_eqb_refl].
Qed.

Lemma mem_not_In x l : mem x l = false <-> ~ In x l.
Proof.
  rewrite <- mem_In. destruct (mem x l); split; congruence.
Qed.

Lemma lookup_column_Some label f :
  In label (column_names f) -> exists col, lookup_column label f = Some col.
Proof.
  induction f as [|[l col] rest IH]; simpl; [tauto|].
  intros [E|Hin].
  - subst l. rewrite pystr_eqb_refl. eauto.
  - destruct (pystr_eqb label l); eauto.
Qed.

Lemma lookup_column_In label f col :
  lookup_column label f = Some col -> In label (column_names f).
Proof.
  induction f as [|[l c] rest IH]; simpl; [discriminate|].
  destruct (pystr_eqb label l) eqn:E.
  - apply pystr_eqb_eq in E. auto.
  - auto.
Qed.

Lemma lookup_column_length label f col :
  frame_ok f = true -> lookup_column label f = Some col -> length col = nrows f.
Proof.
  unfold frame_ok. generalize (nrows f) as n. intros n Hok.
  induction f as [|[l c] rest IH]; simpl in *; [discriminate|].
  apply andb_prop in Hok. destruct Hok as [Hc Hrest].
  destruct (pystr_eqb label l).
  - intros [= <-]. apply Nat.eqb_eq. exact Hc.
  - auto.
Qed.

Lemma assign_column_fresh label col f :
  ~ In label (column_names f) -> assign_column label col f = f ++ [(label, col)].
Proof.
  induction f as [|[l c] rest IH]; simpl; [reflexivity|].
  intro Hn. destruct (pystr_eqb label l) eqn:E.
  - apply pystr_eqb_eq in E. exfalso. apply Hn. left. congruence.
  - rewrite IH by tauto. reflexivity.
Qed.

Lemma lookup_assign_same label col f :
  lookup_column label (assign_column label col f) = Some col.
Proof.
  induction f as [|[l c] rest IH]; simpl.
  - rewrite pystr_eqb_refl. reflexivity.
  - destruct (pystr_eqb label l) eqn:E; simpl; rewrite E; auto.
Qed.

Lemma lookup_assign_other label other col f :
  label <> other ->
  lookup_column label (assign_column other col f) = lookup_column label f.
Proof.
  intro Hne. induction f as [|[l c] rest IH]; simpl.
  - apply pystr_eqb_neq in Hne. rewrite Hne. reflexivity.
  - destruct (pystr_eqb other l) eqn:E; simpl.
    + apply pystr_eqb_eq in E. subst l.
      apply pystr_eqb_neq in Hne. rewrite Hne. reflexivity.
    + destruct (pystr_eqb label l); auto.
Qed.

Lemma nrows_assign label col f :
  f <> [] -> length col = nrows f -> nrows (assign_column label col f) = nrows f.
Proof.
  destruct f as [|[l c] rest]; [congruence|]. simpl. intros _ Hlen.
  destruct (pystr_eqb label l); simpl; auto.
Qed.

Lemma update_nth_last {A} (l : list A) (x y : A) :
  update_nth (length l) y (l ++ [x]) = l ++ [y].
Proof.
  induction l as [|h t IH]; simpl; [reflexivity|]. rewrite IH. reflexivity.
Qed.

Lemma nth_last {A} (l : list A) (x d : A) : nth (length l) (l ++ [x]) d = x.
Proof.
  induction l as [|h t IH]; simpl; auto.
Qed.

Lemma asarray_lists (vs : list (list Q)) : asarray (map VList vs) = Some vs.
Proof.
  induction vs as [|v rest IH]; simpl; [reflexivity|].
  rewrite IH. reflexivity.
Qed.

Lemma index_split (f : pystr -> pystr) p cols i :
  index p (map f cols) = Some i ->
  exists l1 c l2,
    cols = l1 ++ c :: l2 /\ f c = p /\
    (forall c', In c' l1 -> f c' <> p) /\ nth_error cols i = Some c.
Proof.
  revert i. induction cols as [|c rest IH]; simpl; intros i Hi; [discriminate|].
  destruct (pystr_eqb p (f c)) eqn:E.
  - injection Hi as <-. apply pystr_eqb_eq in E.
    exists [], c, rest. simpl. repeat split; auto.
  - destruct (index p (map f rest)) as [j|] eqn:Ej; [|discriminate].
    injection Hi as <-. destruct (IH j eq_refl) as (l1 & c0 & l2 & -> & Hc & Hl & Hn).
    exists (c :: l1), c0, l2. simpl. repeat split; auto.
    intros c' [<-|Hin]; [|auto].
    apply pystr_eqb_neq in E. congruence.
Qed.

Lemma mem_index p l : mem p l = true -> exists i, index p l = Some i.
Proof.
  induction l as [|y rest IH]; simpl; [discriminate|].
  destruct (pystr_eqb p y); simpl; [eauto|].
  intro Hm. destruct (IH Hm) as [i ->]. simpl. eauto.
Qed.

(** ** The pipeline *)

Section PipelineFacts.
Context `{Host}.

Lemma for_pattern_first pre p post columns w :
  (forall q, In q pre -> ~ In q (map str_lower columns)) ->
  In p (map str_lower columns) ->
  exists l1 c l2,
    columns = l1 ++ c :: l2 /\ str_lower c = p /\
    (forall c', In c' l1 -> str_lower c' <> p) /\
    for_pattern (pre ++ p :: post) columns (map str_lower columns) w = (Ok c, w).
Proof.
  induction pre as [|q pre IH]; simpl; intros Hpre Hp.
  - apply mem_In in Hp. rewrite Hp.
    destruct (mem_index _ _ Hp) as [i Hi]. rewrite Hi.
    destruct (index_split _ _ _ _ Hi) as (l1 & c & l2 & E & Hc & Hl & Hn).
    rewrite Hn. exists l1, c, l2. auto.
  - assert (Hq : mem q (map str_lower columns) = false).
    { apply mem_not_In. apply Hpre. left. reflexivity. }
    rewrite Hq. apply IH; auto.
Qed.

Lemma for_pattern_none patterns columns w :
  (forall p, In p patterns -> ~ In p (map str_lower columns)) ->
  for_pattern patterns columns (map str_lower columns) w = (Raise NoNameColumn, w).
Proof.
  induction patterns as [|q rest IH]; simpl; intro Hnone; [reflexivity|].
  assert (Hq : mem q (map str_lower columns) = false).
  { apply mem_not_In. apply Hnone. left. reflexivity. }
  rewrite Hq. apply IH. auto.
Qed.

(** The lookup ends in one of two ways only: with a column of the frame, or
    with [NoNameColumn]. *)
Lemma for_pattern_outcomes patterns columns w :
  (exists c, In c columns /\
             for_pattern patterns columns (map str_lower columns) w = (Ok c, w)) \/
  for_pattern patterns columns (map str_lower columns) w = (Raise NoNameColumn, w).
Proof.
  induction patterns as [|p rest IH]; simpl; [right; reflexivity|].
  destruct (mem p (map str_lower columns)) eqn:Hp; [|exact IH].
  left. destruct (mem_index _ _ Hp) as [i Hi]. rewrite Hi.
  destruct (index_split _ _ _ _ Hi) as (l1 & c & l2 & E & _ & _ & Hn).
  rewrite Hn. exists c. split; [|reflexivity].
  rewrite E. apply in_or_app. right. left. reflexivity.
Qed.

Lemma genderize_auto df w :
  genderize df None w =
  match _identify_column_name (column_names (deref df w)) w with
  | (Ok c, w') => genderize df (Some c) w'
  | (Raise e, w') => (Raise e, w')
  end.
Proof.
  unfold genderize, bind, columns_tolist, read, ret. simpl.
  destruct (_identify_column_name (column_names (deref df w)) w) as [[c|e] w'];
    reflexivity.
Qed.

(** C7.  Without a selector, the name column is the first column whose
    lowercased name equals the first pattern of [name_patterns] that any
    lowercased column name equals; the column is returned under its
    original name, and the call goes on as if it had been given.  When no
    pattern equals a lowercased column name the call ends with
    [NoNameColumn], and the store and the record of capability calls are
    as before the call. *)
Theorem auto_detect_name_column (df : ref) (w : world) :
  (forall pre p post,
      name_patterns = pre ++ p :: post ->
      (forall q, In q pre -> ~ In q (map str_lower (column_names (deref df w)))) ->
      In p (map str_lower (column_names (deref df w))) ->
      exists l1 c l2,
        column_names (deref df w) = l1 ++ c :: l2 /\
        str_lower c = p /\
        (forall c', In c' l1 -> str_lower c' <> p) /\
        _identify_column_name (column_names (deref df w)) w = (Ok c, w) /\
        genderize df None w = genderize df (Some c) w) /\
  ((forall p, In p name_patterns ->
              ~ In p (map str_lower (column_names (deref df w)))) ->
   _identify_column_name (column_names (deref df w)) w = (Raise NoNameColumn, w) /\
   genderize df None w = (Raise NoNameColumn, w)).
Proof.
  split.
  - intros pre p post Epat Hpre Hp.
    destruct (for_pattern_first pre p post (column_names (deref df w)) w Hpre Hp)
      as (l1 & c & l2 & E & Hc & Hl & Hrun).
    exists l1, c, l2. repeat split; auto.
    + unfold _identify_column_name. rewrite Epat. exact Hrun.
    + rewrite genderize_auto. unfold _identify_column_name.
      rewrite Epat, Hrun. reflexivity.
  - intro Hnone. split.
    + unfold _identify_column_name. apply for_pattern_none. exact Hnone.
    + rewrite genderize_auto. unfold _identify_column_name.
      rewrite for_pattern_none by exact Hnone. reflexivity.
Qed.

(** C8.  A selector that names no column of the input ends the call with
    [ColumnNotFound]; the store holds no new frame and no capability has
    been called. *)
Theorem missing_selector_fails (df : ref) (c : pystr) (w : world) :
  ~ In c (column_names (deref df w)) ->
  genderize df (Some c) w = (Raise (ColumnNotFound c), w).
Proof.
  intro Hc. apply mem_not_In in Hc.
  unfold genderize, bind, ret, columns_tolist, read, raise. simpl.
  rewrite Hc. reflexivity.
Qed.

End PipelineFacts.

Ltac step_store :=
  repeat first
    [ rewrite nth_last | rewrite update_nth_last | progress cbn [frames calls] ].

Section PipelineRuns.
Context `{Host}.

Lemma mapM_apply_clean names fs cs :
  mapM apply_clean names (World fs cs) =
  (Ok (map clean_name names), World fs (cs ++ transliterations names)).
Proof.
  revert cs. induction names as [|x rest IH]; intro cs; simpl.
  - unfold ret. rewrite app_nil_r. reflexivity.
  - unfold bind at 1. unfold apply_clean at 1. unfold bind at 1, log, ret at 1.
    simpl. unfold bind at 1. rewrite IH. unfold ret.
    rewrite <- app_assoc. reflexivity.
Qed.

Lemma _preprocess_run df name_column names w :
  frame_ok (deref df w) = true ->
  lookup_column name_column (deref df w) = Some names ->
  _preprocess df name_column w =
  (Ok (length (frames w)),
   World (frames w ++ [preprocessed names (deref df w)])
         (calls w ++ transliterations names)).
Proof.
  destruct w as [fs cs]. unfold deref. simpl frames. simpl calls.
  intros Hok Hnames.
  assert (Hne : nth df fs [] <> []).
  { intro E. rewrite E in Hnames. discriminate. }
  pose proof (@lookup_column_length _ _ _ Hok Hnames) as Hlen.
  unfold _preprocess, copy, getitem, setitem_series, setitem_list.
  unfold bind, read, alloc, write, ret, raise, deref. simpl.
  rewrite nth_last, Hnames, mapM_apply_clean. simpl.
  step_store.
  rewrite nrows_assign by (rewrite ?length_map; assumption).
  rewrite !length_map, Hlen, Nat.eqb_refl.
  step_store.
  unfold preprocessed, encoded_vector, encode_name.
  rewrite !map_map. reflexivity.
Qed.

Lemma _predict_run df column batch w :
  deref df w <> [] ->
  lookup_column transform_name_nlp (deref df w) = Some column ->
  asarray column = Some batch ->
  length (model_predict batch) = nrows (deref df w) ->
  _predict df w =
  (Ok (length (frames w)),
   World (frames w ++ [predicted (model_predict batch) (deref df w)])
         (calls w ++ [Predict batch])).
Proof.
  destruct w as [fs cs]. unfold deref. simpl frames. simpl calls.
  intros Hne Hcol Hbatch Hlen.
  unfold _predict, copy, getitem, setitem_list.
  unfold bind, read, alloc, write, ret, raise, log, deref. simpl.
  rewrite Hcol, Hbatch. simpl. step_store.
  rewrite ?length_map, ?Hlen, ?Nat.eqb_refl. simpl. step_store.
  rewrite nrows_assign by (rewrite ?length_map; assumption).
  rewrite ?length_map, ?Hlen, ?Nat.eqb_refl. step_store.
  unfold predicted. rewrite !map_map. reflexivity.
Qed.

Lemma deref_valid df w : deref df w <> [] -> (df < length (frames w))%nat.
Proof.
  intro Hne. destruct (Nat.lt_ge_cases df (length (frames w))) as [L|G]; auto.
  exfalso. apply Hne. unfold deref. apply nth_overflow. exact G.
Qed.

Lemma assign_column_In label other col f :
  In label (column_names f) -> In label (column_names (assign_column other col f)).
Proof.
  induction f as [|[l c] rest IH]; simpl; [tauto|].
  destruct (pystr_eqb other l); simpl; tauto.
Qed.

Lemma assign_column_In_same label col f :
  In label (column_names (assign_column label col f)).
Proof.
  apply lookup_column_In with (col := col). apply lookup_assign_same.
Qed.

Lemma assign_column_nonempty label col f : assign_column label col f <> [].
Proof.
  destruct f as [|[l c] rest]; simpl; [discriminate|].
  destruct (pystr_eqb label l); discriminate.
Qed.

Lemma filter_all {A} (P : A -> bool) (l : list A) :
  (forall x, In x l -> P x = true) -> filter P l = l.
Proof.
  induction l as [|x rest IH]; simpl; intro Hall; [reflexivity|].
  rewrite Hall by auto. f_equal. apply IH. auto.
Qed.

Lemma column_names_app f g : column_names (f ++ g) = column_names f ++ column_names g.
Proof. apply map_app. Qed.

Lemma written_labels_distinct : NoDup written_labels.
Proof.
  repeat constructor; simpl; intro K;
    repeat (destruct K as [K|K]; [apply pystr_eqb_eq in K; vm_compute in K; discriminate|]);
    exact K.
Qed.

(** On a frame that carries none of the four labels, the returned frame
    is the input frame followed by the two prediction columns. *)
Lemma genderized_fresh names f :
  (forall l, In l written_labels -> ~ In l (column_names f)) ->
  genderized names f =
  f ++ [(gender_predicted,
         map (fun s => VStr (gender_label s))
             (model_predict (map encoded_vector names)));
        (gender_probability,
         map (fun s => VFloat (py_round2 (gender_prob s)))
             (model_predict (map encoded_vector names)))].
Proof.
  intro Hfresh.
  assert (Hc : ~ In clean_name_nlp (column_names f))
    by (apply Hfresh; simpl; tauto).
  assert (Ht : ~ In transform_name_nlp (column_names f))
    by (apply Hfresh; simpl; tauto).
  assert (Hp : ~ In gender_predicted (column_names f))
    by (apply Hfresh; simpl; tauto).
  assert (Hq : ~ In gender_probability (column_names f))
    by (apply Hfresh; simpl; tauto).
  pose proof written_labels_distinct as Hd. unfold written_labels in Hd.
  inversion Hd as [|? ? Hd1 Hd']; subst.
  inversion Hd' as [|? ? Hd2 Hd'']; subst.
  inversion Hd'' as [|? ? Hd3 _]; subst.
  simpl in Hd1, Hd2, Hd3.
  unfold genderized, predicted, preprocessed.
  rewrite (assign_column_fresh clean_name_nlp _ f Hc).
  rewrite (assign_column_fresh transform_name_nlp _ (f ++ _))
    by (rewrite column_names_app; simpl; intro K; apply in_app_or in K;
        simpl in K; intuition congruence).
  rewrite <- app_assoc. simpl app.
  rewrite (assign_column_fresh gender_predicted _ (f ++ _))
    by (rewrite column_names_app; simpl; intro K; apply in_app_or in K;
        simpl in K; intuition congruence).
  rewrite <- app_assoc. simpl app.
  rewrite (assign_column_fresh gender_probability _ (f ++ _))
    by (rewrite column_names_app; simpl; intro K; apply in_app_or in K;
        simpl in K; intuition congruence).
  rewrite <- app_assoc. simpl app.
  rewrite filter_app. f_equal.
  apply filter_all. intros [l c] Hin. simpl fst.
  apply negb_true_iff. apply mem_not_In.
  apply (in_map fst) in Hin. simpl in Hin.
  simpl. intros [K|[K|[]]]; subst l; tauto.
Qed.

(** A call with a selector that names a column of a well-formed frame,
    on a host whose model returns one score per row. *)
Lemma genderize_run df name_column names w :
  frame_ok (deref df w) = true ->
  lookup_column name_column (deref df w) = Some names ->
  length (model_predict (map encoded_vector names)) = length names ->
  genderize df (Some name_column) w =
  (Ok (S (length (frames w))),
   World (frames w ++ [preprocessed names (deref df w);
                       genderized names (deref df w)])
         (calls w ++ transliterations names ++
          [Predict (map encoded_vector names)])).
Proof.
  intros Hok Hnames Hmodel.
  pose proof (@lookup_column_length _ _ _ Hok Hnames) as Hlen.
  assert (Hne : deref df w <> []).
  { intro E. rewrite E in Hnames. discriminate. }
  assert (Hmem : mem name_column (column_names (deref df w)) = true).
  { apply mem_In. eapply lookup_column_In. exact Hnames. }
  unfold genderize. unfold bind at 1. unfold ret at 1.
  unfold bind at 1. unfold columns_tolist, bind at 1, read, ret at 1.
  rewrite Hmem. change (negb true) with false. cbv iota.
  unfold bind at 1. rewrite (@_preprocess_run df name_column names w Hok Hnames).
  set (pre := preprocessed names (deref df w)).
  set (w1 := World (frames w ++ [pre]) (calls w ++ transliterations names)).
  assert (Hpre : deref (length (frames w)) w1 = pre).
  { unfold deref, w1. simpl. apply nth_last. }
  assert (Hrows : nrows pre = nrows (deref df w)).
  { unfold pre, preprocessed.
    rewrite nrows_assign; [rewrite nrows_assign| |]; rewrite ?length_map; auto.
    - apply assign_column_nonempty.
    - rewrite nrows_assign; rewrite ?length_map; auto. }
  unfold bind at 1.
  rewrite (@_predict_run (length (frames w))
             (map VList (map encoded_vector names))
             (map encoded_vector names) w1).
  2: { rewrite Hpre. apply assign_column_nonempty. }
  2: { rewrite Hpre. apply lookup_assign_same. }
  2: { apply asarray_lists. }
  2: { rewrite Hpre, Hrows, Hmodel. exact Hlen. }
  rewrite Hpre.
  set (pred := predicted (model_predict (map encoded_vector names)) pre).
  unfold drop_inplace, bind, read, write, ret, raise, deref, w1. simpl.
  step_store.
  assert (Hc : mem clean_name_nlp (column_names pred) = true).
  { apply mem_In. unfold pred, predicted, pre, preprocessed.
    do 3 apply assign_column_In. apply assign_column_In_same. }
  assert (Ht : mem transform_name_nlp (column_names pred) = true).
  { apply mem_In. unfold pred, predicted, pre, preprocessed.
    do 2 apply assign_column_In. apply assign_column_In_same. }
  rewrite Hc, Ht. simpl. step_store.
  rewrite length_app. simpl length. rewrite Nat.add_1_r.
  rewrite <- !app_assoc. simpl app. reflexivity.
Qed.

(** What [_predict] writes: one label and one rounded confidence per score,
    in the order of the scores. *)
Lemma predicted_columns (scores : list Q) (f : DataFrame) :
  lookup_column gender_predicted (predicted scores f) =
  Some (map (fun s => VStr (gender_label s)) scores) /\
  lookup_column gender_probability (predicted scores f) =
  Some (map (fun s => VFloat (py_round2 (gender_prob s))) scores).
Proof.
  unfold predicted. split.
  - rewrite lookup_assign_other; [apply lookup_assign_same|].
    intro K. apply pystr_eqb_eq in K. vm_compute in K. discriminate.
  - apply lookup_assign_same.
Qed.

(** The two scratch columns are never part of the returned frame. *)
Lemma genderized_no_scratch names f :
  ~ In clean_name_nlp (column_names (genderized names f)) /\
  ~ In transform_name_nlp (column_names (genderized names f)).
Proof.
  unfold genderized, column_names.
  split; intro K; apply in_map_iff in K; destruct K as ([l c] & E & K);
    simpl in E; subst l; apply filter_In in K; destruct K as [_ K];
    simpl in K; vm_compute in K; discriminate.
Qed.

(** A successful call leaves the frame it was given as it was. *)
Lemma genderize_keeps_input df name_column names w :
  frame_ok (deref df w) = true ->
  lookup_column name_column (deref df w) = Some names ->
  length (model_predict (map encoded_vector names)) = length names ->
  deref df (snd (genderize df (Some name_column) w)) = deref df w.
Proof.
  intros Hok Hnames Hmodel.
  rewrite (genderize_run _ _ _ _ Hok Hnames Hmodel). unfold deref. simpl.
  apply app_nth1. apply deref_valid. intro E. rewrite E in Hnames. discriminate.
Qed.

(** Supporting fact for C6: on a well-formed frame that carries none of
    the four labels the call writes to, the result is a new frame made of
    the input columns, unchanged and in order, followed by
    [gender_predicted] and [gender_probability]; the input frame is as it
    was; and the capabilities were called once per name and once for the
    batch. *)
Lemma genderize_fresh_frame df name_column names w :
  frame_ok (deref df w) = true ->
  lookup_column name_column (deref df w) = Some names ->
  length (model_predict (map encoded_vector names)) = length names ->
  (forall l, In l written_labels -> ~ In l (column_names (deref df w))) ->
  exists r w',
    genderize df (Some name_column) w = (Ok r, w') /\
    r <> df /\
    deref df w' = deref df w /\
    deref r w' =
    deref df w ++
    [(gender_predicted,
      map (fun s => VStr (gender_label s))
          (model_predict (map encoded_vector names)));
     (gender_probability,
      map (fun s => VFloat (py_round2 (gender_prob s)))
          (model_predict (map encoded_vector names)))] /\
    calls w' =
    calls w ++ transliterations names ++ [Predict (map encoded_vector names)].
Proof.
  intros Hok Hnames Hmodel Hfresh.
  assert (Hvalid : (df < length (frames w))%nat).
  { apply deref_valid. intro E. rewrite E in Hnames. discriminate. }
  eexists. eexists. split; [apply (genderize_run _ _ _ _ Hok Hnames Hmodel)|].
  split; [lia|]. split; [|split].
  - unfold deref. simpl. apply app_nth1. exact Hvalid.
  - unfold deref. simpl.
    change (frames w ++ [preprocessed names (nth df (frames w) []);
                         genderized names (nth df (frames w) [])])
      with (frames w ++ [preprocessed names (nth df (frames w) [])] ++
                        [genderized names (nth df (frames w) [])]).
    rewrite app_assoc.
    replace (S (length (frames w)))
      with (length (frames w ++ [preprocessed names (nth df (frames w) [])]))
      by (rewrite length_app; simpl; lia).
    rewrite nth_last. apply genderized_fresh. exact Hfresh.
  - reflexivity.
Qed.

(** C10.  [_preprocess] succeeds on every well-formed frame and every
    column of it, whatever the cells of the column are: each cell is turned
    into its string form, which is lowercased, transliterated, filtered and
    encoded.  The string form of [None] is "None", so on a host that
    lowercases it to "none" and transliterates ASCII to itself, its
    canonical name is "none". *)
Theorem preprocess_total (df : ref) (name_column : pystr) (w : world) :
  frame_ok (deref df w) = true ->
  In name_column (column_names (deref df w)) ->
  exists names,
    lookup_column name_column (deref df w) = Some names /\
    _preprocess df name_column w =
    (Ok (length (frames w)),
     World (frames w ++ [preprocessed names (deref df w)])
           (calls w ++ transliterations names)) /\
    lookup_column clean_name_nlp (preprocessed names (deref df w)) =
    Some (map (fun x => VStr (re_sub_strip (unidecode (str_lower (py_str x)))))
              names) /\
    lookup_column transform_name_nlp (preprocessed names (deref df w)) =
    Some (map (fun x => VList (encoded_vector x)) names) /\
    py_str VNone = lit "None" /\
    (str_lower (lit "None") = lit "none" ->
     unidecode (lit "none") = lit "none" ->
     clean_name VNone = lit "none").
Proof.
  intros Hok Hin.
  destruct (lookup_column_Some _ _ Hin) as [names Hnames].
  exists names. split; [exact Hnames|].
  split; [apply _preprocess_run; assumption|].
  split; [|split; [|split]].
  - unfold preprocessed. rewrite lookup_assign_other.
    + rewrite lookup_assign_same, map_map. reflexivity.
    + intro K. apply pystr_eqb_eq in K. vm_compute in K. discriminate.
  - unfold preprocessed. rewrite lookup_assign_same, map_map. reflexivity.
  - reflexivity.
  - intros Hl Hu. unfold clean_name. simpl py_str. rewrite Hl, Hu.
    reflexivity.
Qed.

End PipelineRuns.

(** ** Runs on the sample host *)

Lemma sample_model_length (batch : list (list Q)) :
  length (model_predict (Host := Sample.host) batch) = length batch.
Proof. apply length_map. Qed.

Lemma auto_detect_name_column_witness :
  (exists l1 c l2,
      column_names (deref 0%nat (World [Sample.personas] [])) = l1 ++ c :: l2 /\
      str_lower (Host := Sample.host) c = lit "nombre" /\
      (forall c', In c' l1 -> str_lower (Host := Sample.host) c' <> lit "nombre") /\
      _identify_column_name (H := Sample.host)
        (column_names (deref 0%nat (World [Sample.personas] [])))
        (World [Sample.personas] []) =
      (Ok c, World [Sample.personas] []) /\
      genderize (H := Sample.host) 0%nat None (World [Sample.personas] []) =
      genderize (H := Sample.host) 0%nat (Some c) (World [Sample.personas] [])) /\
  (_identify_column_name (H := Sample.host)
     (column_names (deref 0%nat (World [Sample.places] [])))
     (World [Sample.places] []) =
   (Raise NoNameColumn, World [Sample.places] []) /\
   genderize (H := Sample.host) 0%nat None (World [Sample.places] []) =
   (Raise NoNameColumn, World [Sample.places] [])).
Proof.
  split.
  - apply (proj1 (@auto_detect_name_column Sample.host 0%nat
                    (World [Sample.personas] []))
             [lit "name"] (lit "nombre")
             [lit "first_name"; lit "firstname"; lit "primer_nombre"]).
    + reflexivity.
    + intros q [<-|[]]. vm_compute. intuition discriminate.
    + vm_compute. tauto.
  - apply (proj2 (@auto_detect_name_column Sample.host 0%nat
                    (World [Sample.places] []))).
    intros p Hp. vm_compute in Hp. vm_compute.
    intuition (subst; discriminate).
Defined.

Lemma missing_selector_fails_witness :
  genderize (H := Sample.host) 0%nat (Some (lit "nonexistent_column"))
    (World [Sample.people] []) =
  (Raise (ColumnNotFound (lit "nonexistent_column")), World [Sample.people] []).
Proof.
  apply (@missing_selector_fails Sample.host 0%nat (lit "nonexistent_column")
           (World [Sample.people] [])).
  vm_compute. intuition discriminate.
Defined.

Lemma preprocess_total_witness :
  exists names,
    lookup_column (lit "name") (deref 0%nat (World [Sample.mixed_names] [])) =
    Some names /\
    _preprocess (H := Sample.host) 0%nat (lit "name") (World [Sample.mixed_names] []) =
    (Ok 1%nat,
     World ([Sample.mixed_names] ++
            [preprocessed (H := Sample.host) names
               (deref 0%nat (World [Sample.mixed_names] []))])
           ([] ++ transliterations (H := Sample.host) names)) /\
    lookup_column clean_name_nlp
      (preprocessed (H := Sample.host) names
         (deref 0%nat (World [Sample.mixed_names] []))) =
    Some (map (fun x => VStr (re_sub_strip
                 (unidecode (Host := Sample.host)
                    (str_lower (Host := Sample.host)
                       (py_str (H := Sample.host) x))))) names) /\
    lookup_column transform_name_nlp
      (preprocessed (H := Sample.host) names
         (deref 0%nat (World [Sample.mixed_names] []))) =
    Some (map (fun x => VList (encoded_vector (H := Sample.host) x)) names) /\
    py_str (H := Sample.host) VNone = lit "None" /\
    clean_name (H := Sample.host) VNone = lit "none".
Proof.
  destruct (@preprocess_total Sample.host 0%nat (lit "name")
              (World [Sample.mixed_names] []))
    as (names & Hnames & Hrun & Hclean & Hvec & Hnone & Hname).
  - reflexivity.
  - left. reflexivity.
  - exists names.
    split; [exact Hnames|]. split; [exact Hrun|]. split; [exact Hclean|].
    split; [exact Hvec|]. split; [exact Hnone|]. apply Hname; reflexivity.
Defined.

(** The cells of [Sample.mixed_names], cleaned: [None] and [42] are
    processed as the names "none" and "42". *)
Example preprocess_mixed_names :
  map (clean_name (H := Sample.host)) [VNone; VInt 42; VStr Sample.maria_jose] =
  [lit "none"; lit "42"; lit "maria jose"].
Proof. reflexivity. Qed.

(** C6, at a frame the claim does not hold for.  [Sample.annotated] has a
    column called "clean_name_nlp".  [_preprocess] overwrites it in the copy
    and [genderize] then drops it as a temporary column, so the returned
    frame has the columns "name", "gender_predicted" and
    "gender_probability" only: a field of the input is missing from the
    output, although the docstring of [genderize] promises the original data
    plus the two prediction columns.  The input frame itself is left as it
    was. *)
Theorem genderize_loses_colliding_column :
  exists r w',
    genderize (H := Sample.host) 0%nat (Some (lit "name"))
      (World [Sample.annotated] []) = (Ok r, w') /\
    lookup_column clean_name_nlp (deref 0%nat (World [Sample.annotated] [])) =
    Some [VStr (lit "checked"); VStr (lit "pending")] /\
    column_names (deref r w') =
    [lit "name"; gender_predicted; gender_probability] /\
    lookup_column clean_name_nlp (deref r w') = None /\
    deref 0%nat w' = Sample.annotated.
Proof.
  eexists. eexists. split; [vm_compute; reflexivity|].
  repeat split; reflexivity.
Qed.

(** The same defect on a frame that already has a "gender_predicted"
    column: the column is overwritten where it stands, so the labels the
    input carried are lost and only one column is appended. *)
Lemma genderize_overwrites_prediction_column :
  exists r w',
    genderize (H := Sample.host) 0%nat (Some (lit "name"))
      (World [Sample.labelled] []) = (Ok r, w') /\
    lookup_column gender_predicted (deref 0%nat (World [Sample.labelled] [])) =
    Some [VStr (lit "M"); VStr (lit "F")] /\
    column_names (deref r w') =
    [lit "name"; gender_predicted; lit "age"; gender_probability] /\
    lookup_column gender_predicted (deref r w') =
    Some [VStr (lit "F"); VStr (lit "F")].
Proof.
  eexists. eexists. split; [vm_compute; reflexivity|].
  repeat split; reflexivity.
Qed.

(** The frame of the tests satisfies the hypotheses of
    [genderize_fresh_frame]: its columns come back unchanged, followed by the
    two prediction columns. *)
Example genderize_people :
  exists r w',
    genderize (H := Sample.host) 0%nat (Some (lit "name"))
      (World [Sample.people] []) = (Ok r, w') /\
    r <> 0%nat /\
    deref 0%nat w' = Sample.people /\
    deref r w' =
    Sample.people ++
    [(gender_predicted, [VStr (lit "F"); VStr (lit "F"); VStr (lit "F")]);
     (gender_probability, [VFloat (62 # 100); VFloat (50 # 100); VFloat (88 # 100)])].
Proof.
  destruct (@genderize_fresh_frame Sample.host 0%nat (lit "name")
              [VStr (lit "Juan"); VStr (lit "Maria"); VStr (lit "Carlos")]
              (World [Sample.people] []))
    as (r & w' & Hrun & Hr & Hin & Hout & _).
  - reflexivity.
  - reflexivity.
  - apply sample_model_length.
  - intros l Hl. vm_compute in Hl. vm_compute. intuition (subst; discriminate).
  - exists r, w'. repeat split; assumption.
Qed.

(** ** The older copy *)

(** In [Genderize/Genderize.py] the cleaning lambda calls [x.lower()] on the
    cell itself, so a cell that is not a string ends the call. *)
Lemma legacy_preprocess_rejects_none :
  fst (Legacy.__preprocess (H := Sample.host) 0%nat (lit "name")
         (World [Sample.mixed_names] [])) = Raise AttributeError.
Proof. reflexivity. Qed.

(** The older copy works on the caller's frame: the reference it returns is
    the one it was given, and the frame behind it has changed. *)
Lemma legacy_genderize_mutates_input :
  exists w',
    Legacy.genderize (H := Sample.host) 0%nat None (World [Sample.people] []) =
    (Ok 0%nat, w') /\
    deref 0%nat w' <> Sample.people /\
    length (frames w') = 1%nat.
Proof.
  eexists. split; [vm_compute; reflexivity|].
  split; [discriminate|reflexivity].
Qed.

(** * Further properties *)

(** ** Every path through [genderize] *)

Section PipelinePaths.
Context `{Host}.

(** [_preprocess] on an existing column: the only test is the length test
    of the list assignment. *)
Lemma _preprocess_cases df name_column names w :
  lookup_column name_column (deref df w) = Some names ->
  _preprocess df name_column w =
  if Nat.eqb (length names)
       (nrows (assign_column clean_name_nlp (map VStr (map clean_name names))
                 (deref df w)))
  then (Ok (length (frames w)),
        World (frames w ++ [preprocessed names (deref df w)])
              (calls w ++ transliterations names))
  else (Raise LengthMismatch,
        World (frames w ++
               [assign_column clean_name_nlp (map VStr (map clean_name names))
                  (deref df w)])
              (calls w ++ transliterations names)).
Proof.
  destruct w as [fs cs]. unfold deref. simpl frames. simpl calls.
  intro Hnames.
  unfold _preprocess, copy, getitem, setitem_series, setitem_list.
  unfold bind, read, alloc, write, ret, raise, deref. simpl.
  rewrite nth_last, Hnames, mapM_apply_clean. simpl. step_store.
  rewrite !length_map.
  destruct (Nat.eqb (length names) _); step_store.
  - unfold preprocessed, encoded_vector, encode_name.
    rewrite !map_map. reflexivity.
  - reflexivity.
Qed.

(** [_predict] on a frame that has the encoded column. *)
Lemma _predict_cases df column batch w :
  deref df w <> [] ->
  lookup_column transform_name_nlp (deref df w) = Some column ->
  asarray column = Some batch ->
  _predict df w =
  if Nat.eqb (length (model_predict batch)) (nrows (deref df w))
  then (Ok (length (frames w)),
        World (frames w ++ [predicted (model_predict batch) (deref df w)])
              (calls w ++ [Predict batch]))
  else (Raise LengthMismatch,
        World (frames w ++ [deref df w]) (calls w ++ [Predict batch])).
Proof.
  intros Hne Hcol Hbatch.
  destruct (Nat.eqb (length (model_predict batch)) (nrows (deref df w))) eqn:E.
  - apply Nat.eqb_eq in E. apply (_predict_run _ _ _ _ Hne Hcol Hbatch E).
  - destruct w as [fs cs]. unfold deref in *. simpl frames in *. simpl calls.
    unfold _predict, copy, getitem, setitem_list.
    unfold bind, read, alloc, write, ret, raise, log, deref. simpl.
    rewrite Hcol, Hbatch. simpl. step_store.
    rewrite !length_map, E. reflexivity.
Qed.

Lemma nrows_preprocessed names f :
  f <> [] ->
  length names = nrows (assign_column clean_name_nlp (map VStr (map clean_name names)) f) ->
  nrows (preprocessed names f) = length names.
Proof.
  intros Hne Hlen. unfold preprocessed.
  rewrite nrows_assign; auto.
  - apply assign_column_nonempty.
  - rewrite !length_map. exact Hlen.
Qed.

(** The three ways a call with an existing name column can go. *)
Lemma genderize_cases df name_column names w :
  lookup_column name_column (deref df w) = Some names ->
  genderize df (Some name_column) w =
  if negb (Nat.eqb (length names)
             (nrows (assign_column clean_name_nlp
                       (map VStr (map clean_name names)) (deref df w))))
  then (Raise LengthMismatch,
        World (frames w ++
               [assign_column clean_name_nlp (map VStr (map clean_name names))
                  (deref df w)])
              (calls w ++ transliterations names))
  else if negb (Nat.eqb (length (model_predict (map encoded_vector names)))
                  (length names))
  then (Raise LengthMismatch,
        World (frames w ++ [preprocessed names (deref df w);
                            preprocessed names (deref df w)])
              (calls w ++ transliterations names ++
               [Predict (map encoded_vector names)]))
  else (Ok (S (length (frames w))),
        World (frames w ++ [preprocessed names (deref df w);
                            genderized names (deref df w)])
              (calls w ++ transliterations names ++
               [Predict (map encoded_vector names)])).
Proof.
  intro Hnames.
  assert (Hne : deref df w <> []).
  { intro E. rewrite E in Hnames. discriminate. }
  assert (Hmem : mem name_column (column_names (deref df w)) = true).
  { apply mem_In. eapply lookup_column_In. exact Hnames. }
  unfold genderize. unfold bind at 1. unfold ret at 1.
  unfold bind at 1. unfold columns_tolist, bind at 1, read, ret at 1.
  rewrite Hmem. change (negb true) with false. cbv iota.
  unfold bind at 1. rewrite (_preprocess_cases df name_column names w Hnames).
  destruct (Nat.eqb (length names) _) eqn:E1; simpl negb; cbv iota;
    [|reflexivity].
  apply Nat.eqb_eq in E1.
  set (pre := preprocessed names (deref df w)).
  set (w1 := World (frames w ++ [pre]) (calls w ++ transliterations names)).
  assert (Hpre : deref (length (frames w)) w1 = pre).
  { unfold deref, w1. simpl. apply nth_last. }
  assert (Hrows : nrows pre = length names).
  { apply nrows_preprocessed; assumption. }
  unfold bind at 1.
  rewrite (_predict_cases (length (frames w))
             (map VList (map encoded_vector names))
             (map encoded_vector names) w1).
  2: { rewrite Hpre. apply assign_column_nonempty. }
  2: { rewrite Hpre. apply lookup_assign_same. }
  2: { apply asarray_lists. }
  rewrite Hpre, Hrows.
  destruct (Nat.eqb (length (model_predict (map encoded_vector names)))
              (length names)) eqn:E2; simpl negb; cbv iota.
  - set (pred := predicted (model_predict (map encoded_vector names)) pre).
    unfold drop_inplace, bind, read, write, ret, raise, deref, w1. simpl.
    step_store.
    assert (Hc : mem clean_name_nlp (column_names pred) = true).
    { apply mem_In. unfold pred, predicted, pre, preprocessed.
      do 3 apply assign_column_In. apply assign_column_In_same. }
    assert (Ht : mem transform_name_nlp (column_names pred) = true).
    { apply mem_In. unfold pred, predicted, pre, preprocessed.
      do 2 apply assign_column_In. apply assign_column_In_same. }
    rewrite Hc, Ht. simpl. step_store.
    rewrite length_app. simpl length. rewrite Nat.add_1_r.
    rewrite <- !app_assoc. simpl app. reflexivity.
  - unfold w1. simpl. rewrite <- !app_assoc. reflexivity.
Qed.

End PipelinePaths.

(** ** Frames: rows and labels *)

Lemma frame_ok_rows f :
  frame_ok f = true <-> Forall (fun c => length (snd c) = nrows f) f.
Proof.
  unfold frame_ok. rewrite forallb_forall, Forall_forall.
  split; intros Hall c Hc; specialize (Hall c Hc).
  - apply Nat.eqb_eq. exact Hall.
  - apply Nat.eqb_eq. exact Hall.
Qed.

Lemma rows_frame_ok (n : nat) f :
  f <> [] -> Forall (fun c => length (snd c) = n) f ->
  nrows f = n /\ frame_ok f = true.
Proof.
  intros Hne Hall.
  assert (Hn : nrows f = n).
  { destruct f as [|[l c] rest]; [congruence|]. simpl.
    apply Forall_inv in Hall. exact Hall. }
  split; [exact Hn|]. apply frame_ok_rows. rewrite Hn. exact Hall.
Qed.

Lemma rows_assign (n : nat) label col f :
  length col = n ->
  Forall (fun c => length (snd c) = n) f ->
  Forall (fun c => length (snd c) = n) (assign_column label col f).
Proof.
  intros Hlen. induction 1 as [|[l c] rest Hc Hrest IH]; simpl.
  - constructor; [exact Hlen|constructor].
  - destruct (pystr_eqb label l); constructor; auto.
Qed.

Lemma rows_filter (n : nat) (P : pystr * list cell -> bool) f :
  Forall (fun c => length (snd c) = n) f ->
  Forall (fun c => length (snd c) = n) (filter P f).
Proof.
  rewrite !Forall_forall. intros Hall c Hc. apply filter_In in Hc.
  apply Hall. tauto.
Qed.

Lemma lookup_filter_labels (keep : pystr -> bool) label f :
  lookup_column label (filter (fun c => keep (fst c)) f) =
  if keep label then lookup_column label f else None.
Proof.
  induction f as [|[l c] rest IH]; simpl.
  - destruct (keep label); reflexivity.
  - destruct (keep l) eqn:Kl; simpl.
    + destruct (pystr_eqb label l) eqn:E.
      * apply pystr_eqb_eq in E. subst l. rewrite Kl. reflexivity.
      * exact IH.
    + destruct (pystr_eqb label l) eqn:E.
      * apply pystr_eqb_eq in E. subst l. rewrite Kl in *. exact IH.
      * exact IH.
Qed.

Lemma lookup_column_None label f :
  ~ In label (column_names f) -> lookup_column label f = None.
Proof.
  intro Hn. destruct (lookup_column label f) eqn:E; [|reflexivity].
  exfalso. apply Hn. eapply lookup_column_In. exact E.
Qed.

Lemma lookup_column_app label f g :
  lookup_column label (f ++ g) =
  match lookup_column label f with
  | Some col => Some col
  | None => lookup_column label g
  end.
Proof.
  induction f as [|[l c] rest IH]; simpl; [reflexivity|].
  destruct (pystr_eqb label l); auto.
Qed.

Lemma assign_column_app_r label col f g :
  ~ In label (column_names f) ->
  assign_column label col (f ++ g) = f ++ assign_column label col g.
Proof.
  induction f as [|[l c] rest IH]; simpl; [reflexivity|].
  intro Hn. destruct (pystr_eqb label l) eqn:E.
  - apply pystr_eqb_eq in E. exfalso. apply Hn. left. congruence.
  - rewrite IH by tauto. reflexivity.
Qed.

Lemma written_label_cases l :
  In l written_labels <->
  l = clean_name_nlp \/ l = transform_name_nlp \/
  l = gender_predicted \/ l = gender_probability.
Proof.
  unfold written_labels. simpl. intuition congruence.
Qed.

(** ** The whole call *)

Section WholeCall.
Context `{Host}.

Lemma genderize_guard df c w :
  mem c (column_names (deref df w)) = false ->
  genderize df (Some c) w = (Raise (ColumnNotFound c), w).
Proof.
  intro Hc. unfold genderize, bind, ret, columns_tolist, read, raise. simpl.
  rewrite Hc. reflexivity.
Qed.

(** How the selector is resolved: the lookup fails, or the guard fails, or
    the call goes on with an existing column. *)
Lemma genderize_resolved df selector w :
  (selector = None /\ genderize df selector w = (Raise NoNameColumn, w)) \/
  (exists c, selector = Some c /\ ~ In c (column_names (deref df w)) /\
             genderize df selector w = (Raise (ColumnNotFound c), w)) \/
  (exists c names,
      lookup_column c (deref df w) = Some names /\
      genderize df selector w = genderize df (Some c) w).
Proof.
  destruct selector as [c|].
  - destruct (mem c (column_names (deref df w))) eqn:Hc.
    + right. right. apply mem_In in Hc.
      destruct (lookup_column_Some _ _ Hc) as [names Hnames].
      exists c, names. split; [exact Hnames|reflexivity].
    + right. left. exists c. split; [reflexivity|].
      split; [apply mem_not_In; exact Hc|apply genderize_guard; exact Hc].
  - rewrite genderize_auto. unfold _identify_column_name.
    destruct (for_pattern_outcomes name_patterns (column_names (deref df w)) w)
      as [(c & Hin & Hrun)|Hrun]; rewrite Hrun.
    + right. right. destruct (lookup_column_Some _ _ Hin) as [names Hnames].
      exists c, names. split; [exact Hnames|reflexivity].
    + left. split; reflexivity.
Qed.

Lemma length_check_ok names f :
  frame_ok f = true -> forall name_column,
  lookup_column name_column f = Some names ->
  Nat.eqb (length names)
    (nrows (assign_column clean_name_nlp (map VStr (map clean_name names)) f)) = true.
Proof.
  intros Hok name_column Hnames. apply Nat.eqb_eq.
  pose proof (lookup_column_length _ _ _ Hok Hnames) as Hlen.
  rewrite nrows_assign; [exact Hlen| |rewrite !length_map; exact Hlen].
  intro E. rewrite E in Hnames. discriminate.
Qed.

(** X1.  Whatever the selector and however the call ends, the frames that
    were in the store before a call of [genderize] are the same after it:
    the call only adds frames of its own.  In particular the input frame is
    never modified, on success or on failure. *)
Theorem genderize_leaves_store (df : ref) (selector : option pystr) (w : world) :
  (exists created,
      frames (snd (genderize df selector w)) = frames w ++ created) /\
  (forall r, (r < length (frames w))%nat ->
             deref r (snd (genderize df selector w)) = deref r w).
Proof.
  assert (Hprefix : exists created,
             frames (snd (genderize df selector w)) = frames w ++ created).
  { destruct (genderize_resolved df selector w)
      as [[_ E]|[(c & _ & _ & E)|(c & names & Hnames & E)]]; rewrite E.
    - exists []. simpl. rewrite app_nil_r. reflexivity.
    - exists []. simpl. rewrite app_nil_r. reflexivity.
    - rewrite (genderize_cases _ _ _ _ Hnames).
      destruct (negb _); [eexists; reflexivity|].
      destruct (negb _); eexists; reflexivity. }
  split; [exact Hprefix|].
  intros r Hr. destruct Hprefix as [created E]. unfold deref. rewrite E.
  apply app_nth1. exact Hr.
Qed.



End WholeCall.

(** ** The returned frame *)

Section ReturnedFrame.
Context `{Host}.

(** A successful call went through all of [genderize_cases]. *)
Lemma genderize_success df selector w r :
  fst (genderize df selector w) = Ok r ->
  exists c names,
    lookup_column c (deref df w) = Some names /\
    length (model_predict (map encoded_vector names)) = length names /\
    length names =
    nrows (assign_column clean_name_nlp (map VStr (map clean_name names))
             (deref df w)) /\
    genderize df selector w =
    (Ok (S (length (frames w))),
     World (frames w ++ [preprocessed names (deref df w);
                         genderized names (deref df w)])
           (calls w ++ transliterations names ++
            [Predict (map encoded_vector names)])).
Proof.
  destruct (genderize_resolved df selector w)
    as [[_ E]|[(c & _ & _ & E)|(c & names & Hnames & E)]];
    rewrite E; simpl; try discriminate.
  rewrite (genderize_cases _ _ _ _ Hnames).
  destruct (Nat.eqb (length names) _) eqn:E1; simpl; [|discriminate].
  destruct (Nat.eqb (length (model_predict (map encoded_vector names)))
              (length names)) eqn:E2; simpl; [|discriminate].
  intros _. exists c, names. apply Nat.eqb_eq in E1, E2. auto.
Qed.

Lemma deref_result fs cs (a b : DataFrame) :
  deref (S (length fs)) (World (fs ++ [a; b]) cs) = b.
Proof.
  unfold deref. simpl.
  change (fs ++ [a; b]) with (fs ++ [a] ++ [b]). rewrite app_assoc.
  replace (S (length fs)) with (length (fs ++ [a]))
    by (rewrite length_app; simpl; lia).
  apply nth_last.
Qed.

Lemma genderized_rows names f :
  f <> [] ->
  Forall (fun c => length (snd c) = nrows f) f ->
  length names = nrows f ->
  length (model_predict (map encoded_vector names)) = length names ->
  Forall (fun c => length (snd c) = nrows f) (genderized names f).
Proof.
  intros Hne Hall Hlen Hmodel. unfold genderized, predicted, preprocessed.
  apply rows_filter.
  repeat apply rows_assign; rewrite ?length_map; congruence.
Qed.

Lemma genderized_predictions names f :
  lookup_column gender_predicted (genderized names f) =
  Some (map (fun s => VStr (gender_label s))
            (model_predict (map encoded_vector names))) /\
  lookup_column gender_probability (genderized names f) =
  Some (map (fun s => VFloat (py_round2 (gender_prob s)))
            (model_predict (map encoded_vector names))).
Proof.
  unfold genderized.
  rewrite !(lookup_filter_labels
              (fun l => negb (mem l [clean_name_nlp; transform_name_nlp]))).
  change (negb (mem gender_predicted [clean_name_nlp; transform_name_nlp]))
    with true.
  change (negb (mem gender_probability [clean_name_nlp; transform_name_nlp]))
    with true.
  apply predicted_columns.
Qed.

(** X4.  On a well-formed input frame, the frame a successful call returns
    is a new, well-formed frame with as many rows as the input; it has a
    [gender_predicted] column holding one of "M" and "F" per row, a
    [gender_probability] column with one value per row, and neither of the
    two scratch columns. *)
Theorem genderize_result_shape (df : ref) (selector : option pystr)
    (w : world) (r : ref) :
  frame_ok (deref df w) = true ->
  fst (genderize df selector w) = Ok r ->
  r = S (length (frames w)) /\
  frame_ok (deref r (snd (genderize df selector w))) = true /\
  nrows (deref r (snd (genderize df selector w))) = nrows (deref df w) /\
  (exists labels,
      lookup_column gender_predicted (deref r (snd (genderize df selector w))) =
      Some labels /\
      length labels = nrows (deref df w) /\
      Forall (fun x => x = VStr (lit "M") \/ x = VStr (lit "F")) labels) /\
  (exists probs,
      lookup_column gender_probability
        (deref r (snd (genderize df selector w))) = Some probs /\
      length probs = nrows (deref df w)) /\
  ~ In clean_name_nlp (column_names (deref r (snd (genderize df selector w)))) /\
  ~ In transform_name_nlp
      (column_names (deref r (snd (genderize df selector w)))).
Proof.
  intros Hok Hr.
  destruct (genderize_success _ _ _ _ Hr) as (c & names & Hnames & Hmodel & _ & E).
  rewrite E in Hr. simpl in Hr. injection Hr as <-.
  rewrite E. simpl snd. rewrite deref_result.
  pose proof (lookup_column_length _ _ _ Hok Hnames) as Hlen.
  assert (Hne : deref df w <> []).
  { intro K. rewrite K in Hnames. discriminate. }
  destruct (genderized_predictions names (deref df w)) as [Hp Hq].
  assert (Hout : genderized names (deref df w) <> []).
  { intro K. rewrite K in Hp. discriminate. }
  apply frame_ok_rows in Hok.
  destruct (rows_frame_ok _ _ Hout
              (genderized_rows names _ Hne Hok Hlen Hmodel)) as [Hn Hok'].
  split; [reflexivity|]. split; [exact Hok'|]. split; [exact Hn|].
  split; [|split; [|apply genderized_no_scratch]].
  - eexists. split; [exact Hp|]. split.
    + rewrite length_map. congruence.
    + apply Forall_map. apply Forall_forall. intros s _.
      unfold gender_label. destruct (Qgtb s (1 # 2)); auto.
  - eexists. split; [exact Hq|]. rewrite length_map. congruence.
Qed.

(** X5.  Every column of the input whose label is not one of the four
    labels the call writes to ([clean_name_nlp], [transform_name_nlp],
    [gender_predicted], [gender_probability]) is found unchanged in the
    frame a successful call returns; and a label of that kind that is not in
    the input is not in the output either. *)
Theorem genderize_keeps_other_columns (df : ref) (selector : option pystr)
    (w : world) (r : ref) (label : pystr) :
  fst (genderize df selector w) = Ok r ->
  ~ In label written_labels ->
  lookup_column label (deref r (snd (genderize df selector w))) =
  lookup_column label (deref df w).
Proof.
  intros Hr Hlabel.
  destruct (genderize_success _ _ _ _ Hr) as (c & names & _ & _ & _ & E).
  rewrite E in Hr. simpl in Hr. injection Hr as <-.
  rewrite E. simpl snd. rewrite deref_result.
  rewrite written_label_cases in Hlabel.
  unfold genderized.
  rewrite (lookup_filter_labels
             (fun l => negb (mem l [clean_name_nlp; transform_name_nlp]))).
  assert (Hkeep : negb (mem label [clean_name_nlp; transform_name_nlp]) = true).
  { apply negb_true_iff, mem_not_In. simpl. intuition. }
  rewrite Hkeep. unfold predicted, preprocessed.
  rewrite !lookup_assign_other by (intro K; apply Hlabel; auto).
  reflexivity.
Qed.

End ReturnedFrame.

(** ** Calling again, and a model that miscounts *)

Section Repeated.
Context `{Host}.

Lemma genderized_again names f :
  (forall l, In l written_labels -> ~ In l (column_names f)) ->
  genderized names (genderized names f) = genderized names f.
Proof.
  intro Hfresh. rewrite (genderized_fresh names f Hfresh).
  assert (Hc : ~ In clean_name_nlp (column_names f))
    by (apply Hfresh; simpl; tauto).
  assert (Ht : ~ In transform_name_nlp (column_names f))
    by (apply Hfresh; simpl; tauto).
  assert (Hp : ~ In gender_predicted (column_names f))
    by (apply Hfresh; simpl; tauto).
  assert (Hq : ~ In gender_probability (column_names f))
    by (apply Hfresh; simpl; tauto).
  unfold genderized, predicted, preprocessed.
  rewrite (assign_column_app_r clean_name_nlp _ f _ Hc).
  rewrite (assign_column_app_r transform_name_nlp _ f _ Ht).
  rewrite (assign_column_app_r gender_predicted _ f _ Hp).
  rewrite (assign_column_app_r gender_probability _ f _ Hq).
  rewrite filter_app. f_equal.
  apply filter_all. intros [l c] Hin. simpl fst.
  apply negb_true_iff. apply mem_not_In.
  apply (in_map fst) in Hin. simpl in Hin.
  simpl. intros [K|[K|[]]]; subst l; tauto.
Qed.

(** X6.  Calling [genderize] on the frame a first call returned, with the
    same selector, returns a frame equal to it: the two prediction columns
    are overwritten where they stand with the same values, and nothing is
    appended.  (The input of the first call carries none of the four written
    labels, and the model returns one score per row.) *)
Theorem genderize_again_same_frame (df : ref) (name_column : pystr)
    (names : list cell) (w : world) :
  frame_ok (deref df w) = true ->
  lookup_column name_column (deref df w) = Some names ->
  length (model_predict (map encoded_vector names)) = length names ->
  (forall l, In l written_labels -> ~ In l (column_names (deref df w))) ->
  exists r1 w1 r2 w2,
    genderize df (Some name_column) w = (Ok r1, w1) /\
    genderize r1 (Some name_column) w1 = (Ok r2, w2) /\
    r2 <> r1 /\
    deref r2 w2 = deref r1 w1.
Proof.
  intros Hok Hnames Hmodel Hfresh.
  pose proof (genderize_run _ _ _ _ Hok Hnames Hmodel) as Hrun1.
  set (w1 := World (frames w ++ [preprocessed names (deref df w);
                                 genderized names (deref df w)])
                   (calls w ++ transliterations names ++
                    [Predict (map encoded_vector names)])) in *.
  assert (Hd1 : deref (S (length (frames w))) w1 = genderized names (deref df w)).
  { apply deref_result. }
  assert (Hne : deref df w <> []).
  { intro K. rewrite K in Hnames. discriminate. }
  pose proof (lookup_column_length _ _ _ Hok Hnames) as Hlen.
  assert (Hnames1 : lookup_column name_column (deref (S (length (frames w))) w1) =
                    Some names).
  { rewrite Hd1, (genderized_fresh names _ Hfresh), lookup_column_app, Hnames.
    reflexivity. }
  assert (Hok1 : frame_ok (deref (S (length (frames w))) w1) = true).
  { rewrite Hd1.
    assert (Hout : genderized names (deref df w) <> []).
    { rewrite (genderized_fresh names _ Hfresh). intro K.
      apply app_eq_nil in K. destruct K as [_ K]. discriminate. }
    apply frame_ok_rows in Hok.
    apply (rows_frame_ok _ _ Hout (genderized_rows names _ Hne Hok Hlen Hmodel)). }
  pose proof (genderize_run _ _ _ _ Hok1 Hnames1 Hmodel) as Hrun2.
  eexists. eexists. eexists. eexists.
  split; [exact Hrun1|]. split; [exact Hrun2|]. split.
  - unfold w1. simpl. rewrite length_app. simpl. lia.
  - rewrite deref_result, Hd1. apply genderized_again. exact Hfresh.
Qed.


End Repeated.

(** ** What the encoding keeps and what it loses *)

Lemma firstn_padding {A} (x : A) (n k m : nat) (l : list A) :
  (n <= k)%nat -> (n <= m)%nat ->
  firstn n (l ++ repeat x k) = firstn n (l ++ repeat x m).
Proof.
  revert n. induction l as [|a l IH]; intros n Hk Hm; simpl.
  - rewrite !firstn_repeat_le by lia. reflexivity.
  - destruct n as [|n]; [reflexivity|]. simpl. f_equal. apply IH; lia.
Qed.

Lemma encode_char_digit c : is_digit c = true -> encode_char c = encode_char space.
Proof.
  unfold is_digit. intro Hc. apply andb_prop in Hc. destruct Hc as [Ha Hb].
  apply N.leb_le in Ha, Hb.
  unfold encode_char, py_max.
  destruct (Qgtb (inject_Z (Z.of_N c) - 96) 0) eqn:E; [|reflexivity].
  apply Qgtb_lt in E. exfalso.
  assert (L : (Z.of_N c <= 57)%Z) by lia.
  rewrite Zle_Qle in L. z2q. lra.
Qed.

Lemma encode_char_one_to_one c1 c2 :
  is_letter c1 = true \/ c1 = space ->
  is_letter c2 = true \/ c2 = space ->
  encode_char c1 == encode_char c2 -> c1 = c2.
Proof.
  intros H1 H2 E. rewrite !encode_char_Z in E.
  rewrite inject_Z_injective in E. unfold is_letter, space in *.
  destruct H1 as [H1|H1]; destruct H2 as [H2|H2];
    try (apply andb_prop in H1; destruct H1 as [A1 B1]; apply N.leb_le in A1, B1);
    try (apply andb_prop in H2; destruct H2 as [A2 B2]; apply N.leb_le in A2, B2);
    subst; lia.
Qed.

Lemma encode_chars_one_to_one (l1 l2 : pystr) :
  Forall (fun c => is_letter c = true \/ c = space) l1 ->
  Forall (fun c => is_letter c = true \/ c = space) l2 ->
  Forall2 Qeq (map encode_char l1) (map encode_char l2) -> l1 = l2.
Proof.
  intro H1. revert l2. induction H1 as [|c1 l1 Hc1 _ IH]; intros [|c2 l2] H2 E;
    simpl in E; inversion E; subst; [reflexivity|].
  inversion H2; subst. f_equal.
  - apply encode_char_one_to_one; assumption.
  - apply IH; assumption.
Qed.

(** X8.  Only the first 50 characters of a canonical name reach the
    classifier: a name of 50 characters or more encodes like any name that
    continues it, and padding a name beforehand changes nothing. *)
Theorem encode_name_first_fifty :
  (forall name rest : pystr,
      (name_length <= length name)%nat ->
      encode_name (name ++ rest) = encode_name name) /\
  (forall name : pystr, encode_name (pad_name name) = encode_name name).
Proof.
  split.
  - intros name rest Hlen. unfold encode_name. f_equal.
    rewrite (pad_name_long name Hlen).
    unfold pad_name. rewrite <- app_assoc, firstn_app.
    replace (name_length - length name)%nat with 0%nat by lia.
    simpl. apply app_nil_r.
  - intro name. unfold encode_name. f_equal.
    rewrite pad_name_long by (rewrite pad_name_length; lia).
    apply firstn_all2. rewrite pad_name_length. unfold name_length. lia.
Qed.

(** X9.  The encoding cannot tell a digit from a space, nor see spaces at
    the end of a name: replacing every digit of a name by a space, or adding
    spaces after it, gives the same encoded vector. *)
Theorem encode_name_blind_spots (name : pystr) (k : nat) :
  encode_name (blank_digits name) = encode_name name /\
  encode_name (name ++ repeat space k) = encode_name name.
Proof.
  split.
  - unfold encode_name, pad_name, blank_digits.
    replace (repeat space name_length)
      with (map (fun c => if is_digit c then space else c)
                (repeat space name_length))
      by (rewrite map_repeat; reflexivity).
    rewrite <- map_app, firstn_map, map_map.
    apply map_ext_in. intros c _.
    destruct (is_digit c) eqn:E; [|reflexivity].
    symmetry. apply encode_char_digit. exact E.
  - unfold encode_name, pad_name. f_equal.
    rewrite <- app_assoc, <- repeat_app.
    apply firstn_padding; lia.
Qed.

(** X10.  On names made of the letters a to z and spaces the encoding loses
    nothing but the padding: two such names with equal encoded vectors have
    the same 50 padded characters. *)
Theorem encode_name_one_to_one (a b : pystr) :
  Forall (fun c => is_letter c = true \/ c = space) a ->
  Forall (fun c => is_letter c = true \/ c = space) b ->
  Forall2 Qeq (encode_name a) (encode_name b) ->
  pad_name a = pad_name b.
Proof.
  intros Ha Hb E.
  assert (Hpad : forall n, Forall (fun c => is_letter c = true \/ c = space) n ->
                           Forall (fun c => is_letter c = true \/ c = space)
                                  (pad_name n)).
  { intros n Hn. unfold pad_name. apply Forall_forall. intros c Hc.
    apply in_firstn, in_app_or in Hc. destruct Hc as [Hc|Hc].
    - rewrite Forall_forall in Hn. auto.
    - apply repeat_spec in Hc. auto. }
  apply encode_chars_one_to_one; auto.
Qed.

(** ** The older copy, [Genderize/Genderize.py] *)

Lemma update_nth_length {A} (n : nat) (x : A) (l : list A) :
  length (update_nth n x l) = length l.
Proof.
  revert n. induction l as [|h t IH]; intros [|n]; simpl; auto.
Qed.

Lemma nth_update_nth {A} (n : nat) (x d : A) (l : list A) :
  (n < length l)%nat -> nth n (update_nth n x l) d = x.
Proof.
  revert n. induction l as [|h t IH]; intros [|n] Hn; simpl in *; try lia.
  - reflexivity.
  - apply IH. lia.
Qed.

Lemma nth_update_nth_other {A} (n m : nat) (x d : A) (l : list A) :
  n <> m -> nth m (update_nth n x l) d = nth m l d.
Proof.
  revert n m. induction l as [|h t IH]; intros [|n] [|m] Hne; simpl; auto.
  congruence.
Qed.

Lemma update_nth_again {A} (n : nat) (x y : A) (l : list A) :
  update_nth n y (update_nth n x l) = update_nth n y l.
Proof.
  revert n. induction l as [|h t IH]; intros [|n]; simpl; auto.
  rewrite IH. reflexivity.
Qed.

Lemma assign_column_again label c1 c2 f :
  assign_column label c2 (assign_column label c1 f) = assign_column label c2 f.
Proof.
  induction f as [|[l c] rest IH]; simpl.
  - rewrite pystr_eqb_refl. reflexivity.
  - destruct (pystr_eqb label l) eqn:E; simpl; rewrite E; [reflexivity|].
    rewrite IH. reflexivity.
Qed.

Section LegacyFacts.
Context `{Host}.

Lemma legacy_mapM_strings names fs cs :
  forallb is_str names = true ->
  mapM Legacy.apply_clean names (World fs cs) =
  (Ok (map clean_name names), World fs (cs ++ transliterations names)).
Proof.
  revert cs. induction names as [|x rest IH]; intros cs Hstr; simpl.
  - unfold ret. rewrite app_nil_r. reflexivity.
  - simpl in Hstr. apply andb_prop in Hstr. destruct Hstr as [Hx Hrest].
    destruct x; try discriminate.
    unfold bind at 1. unfold Legacy.apply_clean at 1.
    unfold bind at 1, log, ret at 1. simpl.
    unfold bind at 1. rewrite (IH _ Hrest). unfold ret.
    rewrite <- app_assoc. reflexivity.
Qed.

Lemma legacy_mapM_non_string strs x rest fs cs :
  forallb is_str strs = true -> is_str x = false ->
  mapM Legacy.apply_clean (strs ++ x :: rest) (World fs cs) =
  (Raise AttributeError, World fs (cs ++ transliterations strs)).
Proof.
  revert cs. induction strs as [|s strs IH]; intros cs Hstr Hx; simpl.
  - rewrite app_nil_r. destruct x; try discriminate; reflexivity.
  - simpl in Hstr. apply andb_prop in Hstr. destruct Hstr as [Hs Hstrs].
    destruct s; try discriminate.
    unfold bind at 1. unfold Legacy.apply_clean at 1.
    unfold bind at 1, log, ret at 1. simpl.
    unfold bind at 1. rewrite (IH _ Hstrs Hx).
    rewrite <- app_assoc. reflexivity.
Qed.

End LegacyFacts.

Ltac step_in_place Hvalid :=
  repeat first
    [ rewrite update_nth_again
    | rewrite nth_update_nth by (rewrite ?update_nth_length; exact Hvalid)
    | progress cbn [frames calls] ].

Section LegacyRuns.
Context `{Host}.

Lemma legacy_preprocess_run df name_column names w :
  frame_ok (deref df w) = true ->
  lookup_column name_column (deref df w) = Some names ->
  forallb is_str names = true ->
  Legacy.__preprocess df name_column w =
  (Ok df,
   World (update_nth df (preprocessed names (deref df w)) (frames w))
         (calls w ++ transliterations names)).
Proof.
  intros Hok Hnames Hstr.
  assert (Hne : deref df w <> []).
  { intro E. rewrite E in Hnames. discriminate. }
  pose proof (deref_valid _ _ Hne) as Hvalid.
  pose proof (length_check_ok names _ Hok _ Hnames) as Hcheck.
  destruct w as [fs cs]. unfold deref in *. simpl frames in *. simpl calls.
  unfold Legacy.__preprocess, getitem, setitem_series, setitem_list.
  unfold bind, read, write, ret, raise, deref. simpl.
  rewrite Hnames, legacy_mapM_strings by exact Hstr. simpl.
  step_in_place Hvalid.
  rewrite !length_map, Hcheck. step_in_place Hvalid.
  unfold preprocessed, encoded_vector, encode_name.
  rewrite !map_map. reflexivity.
Qed.

Lemma legacy_predict_run df column batch w :
  (df < length (frames w))%nat ->
  deref df w <> [] ->
  lookup_column transform_name_nlp (deref df w) = Some column ->
  asarray column = Some batch ->
  length (model_predict batch) = nrows (deref df w) ->
  Legacy.__predict df w =
  (Ok df,
   World (update_nth df (predicted (model_predict batch) (deref df w)) (frames w))
         (calls w ++ [Predict batch])).
Proof.
  destruct w as [fs cs]. unfold deref. simpl frames. simpl calls.
  intros Hvalid Hne Hcol Hbatch Hlen.
  unfold Legacy.__predict, getitem, setitem_series, setitem_list.
  unfold bind, read, write, ret, raise, log, deref. simpl.
  rewrite Hcol, Hbatch. simpl.
  rewrite !length_map, Hlen, Nat.eqb_refl. simpl. step_in_place Hvalid.
  rewrite nrows_assign by (rewrite ?length_map; assumption).
  rewrite ?length_map, ?Hlen, ?Nat.eqb_refl. simpl. step_in_place Hvalid.
  rewrite lookup_assign_same. simpl. step_in_place Hvalid.
  rewrite assign_column_again. unfold predicted.
  rewrite !map_map. reflexivity.
Qed.

End LegacyRuns.

Section LegacyCalls.
Context `{Host}.

Lemma legacy_genderize_selected df c w :
  c <> [] ->
  Legacy.genderize df (Some c) w =
  match Legacy.__preprocess df c w with
  | (Ok df_trf, w1) =>
      match Legacy.__predict df_trf w1 with
      | (Ok df_res, w2) =>
          match drop_inplace df_res [clean_name_nlp; transform_name_nlp] w2 with
          | (Ok _, w3) => (Ok df_res, w3)
          | (Raise e, w3) => (Raise e, w3)
          end
      | (Raise e, w2) => (Raise e, w2)
      end
  | (Raise e, w1) => (Raise e, w1)
  end.
Proof.
  intro Hc. destruct c as [|a c]; [congruence|].
  unfold Legacy.genderize. unfold bind at 1. unfold ret at 1.
  unfold bind at 1.
  destruct (Legacy.__preprocess df (a :: c) w) as [[df_trf|e] w1];
    [|reflexivity].
  unfold bind at 1.
  destruct (Legacy.__predict df_trf w1) as [[df_res|e] w2]; [|reflexivity].
  unfold bind at 1.
  destruct (drop_inplace df_res [clean_name_nlp; transform_name_nlp] w2)
    as [[u|e] w3]; reflexivity.
Qed.

(** X11.  The older copy looks for "name" and "nombre" only.  When one of
    the two equals a lowercased column name it finds the column the package
    finds; when neither does, it ends with [UnboundLocalError], also for
    columns such as "first_name" that the package accepts. *)
Theorem legacy_identify_column_name (columns : list pystr) (w : world) :
  (In (lit "name") (map str_lower columns) \/
   In (lit "nombre") (map str_lower columns) ->
   Legacy.__identify_column_name columns w = _identify_column_name columns w) /\
  (~ In (lit "name") (map str_lower columns) ->
   ~ In (lit "nombre") (map str_lower columns) ->
   Legacy.__identify_column_name columns w = (Raise UnboundLocalError, w)).
Proof.
  unfold Legacy.__identify_column_name, _identify_column_name.
  unfold name_patterns. simpl map at 1. simpl for_pattern.
  split.
  - intro Hin.
    destruct (mem (lit "name") (map str_lower columns)) eqn:E1.
    + destruct (mem_index _ _ E1) as [i Hi]. rewrite Hi. reflexivity.
    + destruct (mem (lit "nombre") (map str_lower columns)) eqn:E2.
      * destruct (mem_index _ _ E2) as [i Hi]. rewrite Hi. reflexivity.
      * apply mem_not_In in E1, E2. tauto.
  - intros H1 H2. apply mem_not_In in H1, H2. rewrite H1, H2. reflexivity.
Qed.

(** X12.  In the older copy a name column with a cell that is not a string
    ends the call with [AttributeError] at the first such cell: the names
    before it have been transliterated, and the caller's frame has not been
    touched yet. *)
Theorem legacy_rejects_non_string (df : ref) (c : pystr)
    (strs : list cell) (x : cell) (rest : list cell) (w : world) :
  c <> [] ->
  lookup_column c (deref df w) = Some (strs ++ x :: rest) ->
  forallb is_str strs = true ->
  is_str x = false ->
  Legacy.genderize df (Some c) w =
  (Raise AttributeError, World (frames w) (calls w ++ transliterations strs)).
Proof.
  intros Hc Hnames Hstrs Hx. rewrite (legacy_genderize_selected _ _ _ Hc).
  destruct w as [fs cs]. unfold deref in Hnames. simpl frames in *. simpl calls.
  unfold Legacy.__preprocess, getitem. unfold bind, read, ret, raise, deref.
  simpl. rewrite Hnames.
  rewrite (legacy_mapM_non_string _ _ _ _ _ Hstrs Hx). reflexivity.
Qed.

(** X13.  On a well-formed frame whose name column holds strings only, the
    older copy returns the reference it was given and creates no frame: the
    caller's frame itself becomes the frame that the package returns as a
    new frame for the same input, and the capabilities receive the same
    calls. *)
Theorem legacy_genderize_in_place (df : ref) (c : pystr) (names : list cell)
    (w : world) :
  c <> [] ->
  frame_ok (deref df w) = true ->
  lookup_column c (deref df w) = Some names ->
  forallb is_str names = true ->
  length (model_predict (map encoded_vector names)) = length names ->
  fst (Legacy.genderize df (Some c) w) = Ok df /\
  length (frames (snd (Legacy.genderize df (Some c) w))) = length (frames w) /\
  deref df (snd (Legacy.genderize df (Some c) w)) =
  deref (S (length (frames w))) (snd (genderize df (Some c) w)) /\
  calls (snd (Legacy.genderize df (Some c) w)) =
  calls (snd (genderize df (Some c) w)).
Proof.
  intros Hc Hok Hnames Hstr Hmodel.
  assert (Hne : deref df w <> []).
  { intro E. rewrite E in Hnames. discriminate. }
  pose proof (deref_valid _ _ Hne) as Hvalid.
  pose proof (lookup_column_length _ _ _ Hok Hnames) as Hlen.
  rewrite (genderize_run _ _ _ _ Hok Hnames Hmodel). simpl snd.
  rewrite deref_result.
  rewrite (legacy_genderize_selected _ _ _ Hc).
  rewrite (legacy_preprocess_run _ _ _ _ Hok Hnames Hstr).
  set (pre := preprocessed names (deref df w)).
  set (w1 := World (update_nth df pre (frames w))
                   (calls w ++ transliterations names)).
  assert (Hpre : deref df w1 = pre).
  { unfold deref, w1. simpl. apply nth_update_nth. exact Hvalid. }
  rewrite (legacy_predict_run df (map VList (map encoded_vector names))
             (map encoded_vector names) w1).
  2: { unfold w1. simpl. rewrite update_nth_length. exact Hvalid. }
  2: { rewrite Hpre. apply assign_column_nonempty. }
  2: { rewrite Hpre. apply lookup_assign_same. }
  2: { apply asarray_lists. }
  2: { rewrite Hpre. unfold pre. rewrite nrows_preprocessed; auto.
       rewrite nrows_assign; rewrite ?length_map; auto. }
  rewrite Hpre.
  set (pred := predicted (model_predict (map encoded_vector names)) pre).
  assert (Hcl : mem clean_name_nlp (column_names pred) = true).
  { apply mem_In. unfold pred, predicted, pre, preprocessed.
    do 3 apply assign_column_In. apply assign_column_In_same. }
  assert (Htr : mem transform_name_nlp (column_names pred) = true).
  { apply mem_In. unfold pred, predicted, pre, preprocessed.
    do 2 apply assign_column_In. apply assign_column_In_same. }
  unfold drop_inplace, bind, read, write, ret, raise, deref, w1. simpl.
  step_in_place Hvalid. rewrite Hcl, Htr. simpl. step_in_place Hvalid.
  split; [reflexivity|]. split; [apply update_nth_length|].
  split.
  - reflexivity.
  - rewrite <- app_assoc. reflexivity.
Qed.

(** X14.  The older copy has no guard on the selector: the empty string
    counts as no selector at all, and a selector that names no column ends
    the call with the [KeyError] of the column access, nothing having been
    done. *)
Theorem legacy_selector_edge_cases (df : ref) (c : pystr) (w : world) :
  Legacy.genderize df (Some []) w = Legacy.genderize df None w /\
  (c <> [] -> ~ In c (column_names (deref df w)) ->
   Legacy.genderize df (Some c) w = (Raise (KeyError c), w)).
Proof.
  split; [reflexivity|].
  intros Hc Hin. rewrite (legacy_genderize_selected _ _ _ Hc).
  unfold Legacy.__preprocess, getitem. unfold bind, read, ret, raise.
  rewrite (lookup_column_None _ _ Hin). reflexivity.
Qed.

End LegacyCalls.

(** ** The further properties on the sample host *)

Lemma genderize_leaves_store_witness :
  deref 0%nat
    (snd (genderize (H := Sample.host) 0%nat None (World [Sample.people] []))) =
  deref 0%nat (World [Sample.people] []).
Proof.
  apply (proj2 (@genderize_leaves_store Sample.host 0%nat None
                  (World [Sample.people] []))).
  simpl. lia.
Defined.



Lemma genderize_result_shape_witness :
  frame_ok
    (deref 2%nat (snd (genderize (H := Sample.host) 0%nat None
                         (World [Sample.people] [])))) = true /\
  nrows
    (deref 2%nat (snd (genderize (H := Sample.host) 0%nat None
                         (World [Sample.people] [])))) =
  nrows (deref 0%nat (World [Sample.people] [])).
Proof.
  destruct (@genderize_result_shape Sample.host 0%nat None
              (World [Sample.people] []) 2%nat)
    as (_ & Hok & Hrows & _).
  - reflexivity.
  - reflexivity.
  - split; [exact Hok|exact Hrows].
Defined.

Lemma genderize_keeps_other_columns_witness :
  lookup_column (lit "name")
    (deref 2%nat (snd (genderize (H := Sample.host) 0%nat (Some (lit "name"))
                         (World [Sample.annotated] [])))) =
  lookup_column (lit "name") (deref 0%nat (World [Sample.annotated] [])).
Proof.
  apply (@genderize_keeps_other_columns Sample.host 0%nat (Some (lit "name"))
           (World [Sample.annotated] []) 2%nat (lit "name")).
  - reflexivity.
  - vm_compute. intuition discriminate.
Defined.

Lemma genderize_again_same_frame_witness :
  exists r1 w1 r2 w2,
    genderize (H := Sample.host) 0%nat (Some (lit "name"))
      (World [Sample.people] []) = (Ok r1, w1) /\
    genderize (H := Sample.host) r1 (Some (lit "name")) w1 = (Ok r2, w2) /\
    r2 <> r1 /\
    deref r2 w2 = deref r1 w1.
Proof.
  apply (@genderize_again_same_frame Sample.host 0%nat (lit "name")
           [VStr (lit "Juan"); VStr (lit "Maria"); VStr (lit "Carlos")]
           (World [Sample.people] [])).
  - reflexivity.
  - reflexivity.
  - reflexivity.
  - intros l Hl. vm_compute in Hl. vm_compute. intuition (subst; discriminate).
Defined.


Lemma encode_name_first_fifty_witness :
  encode_name (repeat 97%N 50 ++ lit "bc") = encode_name (repeat 97%N 50).
Proof.
  apply (proj1 encode_name_first_fifty (repeat 97%N 50) (lit "bc")).
  simpl. unfold name_length. lia.
Defined.

Lemma encode_name_one_to_one_witness :
  pad_name (lit "ana") = pad_name (lit "ana  ").
Proof.
  apply (encode_name_one_to_one (lit "ana") (lit "ana  ")).
  - repeat (apply Forall_cons; [first [left; reflexivity|right; reflexivity]|]).
    apply Forall_nil.
  - repeat (apply Forall_cons; [first [left; reflexivity|right; reflexivity]|]).
    apply Forall_nil.
  - vm_compute. repeat (apply Forall2_cons; [reflexivity|]). apply Forall2_nil.
Defined.

Lemma legacy_identify_column_name_witness :
  Legacy.__identify_column_name (H := Sample.host)
    (column_names Sample.personas) (World [] []) =
  _identify_column_name (H := Sample.host)
    (column_names Sample.personas) (World [] []) /\
  Legacy.__identify_column_name (H := Sample.host)
    [lit "id"; lit "first_name"] (World [] []) =
  (Raise UnboundLocalError, World [] []).
Proof.
  split.
  - apply (proj1 (@legacy_identify_column_name Sample.host
                    (column_names Sample.personas) (World [] []))).
    right. vm_compute. tauto.
  - apply (proj2 (@legacy_identify_column_name Sample.host
                    [lit "id"; lit "first_name"] (World [] []))).
    + vm_compute. intuition discriminate.
    + vm_compute. intuition discriminate.
Defined.

Lemma legacy_rejects_non_string_witness :
  Legacy.genderize (H := Sample.host) 0%nat (Some (lit "name"))
    (World [Sample.gap_names] []) =
  (Raise AttributeError,
   World [Sample.gap_names]
         ([] ++ transliterations (H := Sample.host) [VStr (lit "Juan")])).
Proof.
  apply (@legacy_rejects_non_string Sample.host 0%nat (lit "name")
           [VStr (lit "Juan")] VNone [VStr (lit "Maria")]
           (World [Sample.gap_names] [])).
  - discriminate.
  - reflexivity.
  - reflexivity.
  - reflexivity.
Defined.

Lemma legacy_genderize_in_place_witness :
  fst (Legacy.genderize (H := Sample.host) 0%nat (Some (lit "name"))
         (World [Sample.people] [])) = Ok 0%nat /\
  length (frames (snd (Legacy.genderize (H := Sample.host) 0%nat
                         (Some (lit "name")) (World [Sample.people] [])))) =
  length (frames (World [Sample.people] [])) /\
  deref 0%nat (snd (Legacy.genderize (H := Sample.host) 0%nat
                      (Some (lit "name")) (World [Sample.people] []))) =
  deref (S (length (frames (World [Sample.people] []))))
    (snd (genderize (H := Sample.host) 0%nat (Some (lit "name"))
            (World [Sample.people] []))) /\
  calls (snd (Legacy.genderize (H := Sample.host) 0%nat (Some (lit "name"))
                (World [Sample.people] []))) =
  calls (snd (genderize (H := Sample.host) 0%nat (Some (lit "name"))
                (World [Sample.people] []))).
Proof.
  apply (@legacy_genderize_in_place Sample.host 0%nat (lit "name")
           [VStr (lit "Juan"); VStr (lit "Maria"); VStr (lit "Carlos")]
           (World [Sample.people] [])).
  - discriminate.
  - reflexivity.
  - reflexivity.
  - reflexivity.
  - reflexivity.
Defined.

Lemma legacy_selector_edge_cases_witness :
  Legacy.genderize (H := Sample.host) 0%nat (Some (lit "nonexistent_column"))
    (World [Sample.people] []) =
  (Raise (KeyError (lit "nonexistent_column")), World [Sample.people] []).
Proof.
  apply (proj2 (@legacy_selector_edge_cases Sample.host 0%nat
                  (lit "nonexistent_column") (World [Sample.people] []))).
  - discriminate.
  - vm_compute. intuition discriminate.
Defined.

(** ** Rows *)

Section Rows.
Context `{Host}.

(** X15.  Rows keep their place.  With a model that scores each vector of
    the batch on its own, the label and the confidence in row [i] of the
    returned frame are those of the score of the name in row [i] of the
    input. *)
Theorem genderize_row_by_row (df : ref) (name_column : pystr)
    (names : list cell) (w : world) (score : list Q -> Q) (i : nat) (x : cell) :
  (forall batch, model_predict batch = map score batch) ->
  frame_ok (deref df w) = true ->
  lookup_column name_column (deref df w) = Some names ->
  nth_error names i = Some x ->
  exists r w' labels probs,
    genderize df (Some name_column) w = (Ok r, w') /\
    lookup_column gender_predicted (deref r w') = Some labels /\
    lookup_column gender_probability (deref r w') = Some probs /\
    nth_error labels i = Some (VStr (gender_label (score (encoded_vector x)))) /\
    nth_error probs i =
    Some (VFloat (py_round2 (gender_prob (score (encoded_vector x))))).
Proof.
  intros Hmodel Hok Hnames Hx.
  assert (Hlen : length (model_predict (map encoded_vector names)) = length names).
  { rewrite Hmodel, !length_map. reflexivity. }
  destruct (genderized_predictions names (deref df w)) as [Hp Hq].
  eexists. eexists. eexists. eexists.
  split; [apply (genderize_run _ _ _ _ Hok Hnames Hlen)|].
  rewrite deref_result.
  split; [exact Hp|]. split; [exact Hq|].
  rewrite Hmodel, !map_map.
  split.
  - apply (map_nth_error
             (fun y => VStr (gender_label (score (encoded_vector y)))) i names Hx).
  - apply (map_nth_error
             (fun y => VFloat (py_round2 (gender_prob (score (encoded_vector y)))))
             i names Hx).
Qed.

End Rows.

Lemma genderize_row_by_row_witness :
  exists r w' labels probs,
    genderize (H := Sample.host) 0%nat (Some (lit "name"))
      (World [Sample.people] []) = (Ok r, w') /\
    lookup_column gender_predicted (deref r w') = Some labels /\
    lookup_column gender_probability (deref r w') = Some probs /\
    nth_error labels 1 =
    Some (VStr (gender_label
                  (Sample.first_slot_score
                     (encoded_vector (H := Sample.host) (VStr (lit "Maria")))))) /\
    nth_error probs 1 =
    Some (VFloat (py_round2 (gender_prob
                    (Sample.first_slot_score
                       (encoded_vector (H := Sample.host) (VStr (lit "Maria"))))))).
Proof.
  apply (@genderize_row_by_row Sample.host 0%nat (lit "name")
           [VStr (lit "Juan"); VStr (lit "Maria"); VStr (lit "Carlos")]
           (World [Sample.people] []) Sample.first_slot_score 1%nat
           (VStr (lit "Maria"))).
  - intro batch. reflexivity.
  - reflexivity.
  - reflexivity.
  - reflexivity.
Defined.
